(** * Funnel builder: the graph store of [src/store/funnelStore.ts]

    A shallow embedding of the zustand store that owns the funnel graph
    (nodes, edges, per-type counters), of the node editor's [handleBlur],
    and of the JSON import and export, followed by the properties proved
    about them.

    Conventions of the embedding.
    - The store is a value of [FunnelState]; every action is a function from
      the old state to the new one ([set] merges the returned fields).
    - [Date.now ()] is an input of [addNode] (argument [now]).
    - JavaScript numbers are modelled by integers, written in plain
      decimal: the counters and clock readings are integers, and canvas
      positions are taken on the integer grid (the canvas of [App.tsx] snaps
      to a grid of 20).  Fractions, NaN and the infinities lie outside the
      model, and nothing is claimed of values that hold them.
    - Strings are byte strings (the UTF-8 text).
    - [JSON.parse] and [JSON.stringify] are parameters of the persistence
      operations (class [JSONHost]); a reference implementation is given
      and proved to read back what it writes.
    - [addEdge] is the function of the reactflow package, which the store
      imports: it drops a connection with a falsy end and one that is
      already there.
    - [localStorage] carries the writes the browser accepts: [setItem] can
      throw, and so can [saveToStorage]; [importJSON] catches it.
    - The delayed saves ([setTimeout (saveToStorage, 100)]) are not part of
      the state transitions; [saveToStorage] itself is modelled, and so is the
      synchronous save of [importJSON].
    - [console.warn] output is given by a separate function next to the
      transition that emits it. *)

From Stdlib Require Import String Ascii List ZArith Lia Bool Arith.
From Stdlib Require Import DecimalString DecimalZ DecimalPos DecimalFacts.
Import ListNotations.

Open Scope string_scope.
Open Scope list_scope.

(* ================================================================= *)
(** ** JavaScript primitives used by the store *)

(** [null] is [None]: the type [string | null]. *)
Definition nullable := option string.

(** [a === b] for [a : string | null] and [b : string]. *)
Definition nullable_is (a : nullable) (b : string) : bool :=
  match a with
  | Some x => String.eqb x b
  | None => false
  end.

(** [a === b] on [string | null]. *)
Definition nullable_eqb (a b : nullable) : bool :=
  match a, b with
  | Some x, Some y => String.eqb x y
  | None, None => true
  | _, _ => false
  end.

(** A [string | null] inside a template literal. *)
Definition nullable_text (a : nullable) : string :=
  match a with
  | Some x => x
  | None => "null"
  end.

(** An integer inside a template literal (Number::toString, radix 10). *)
Definition Number_toString (z : Z) : string :=
  NilZero.string_of_int (Z.to_int z).

(** The double quote character. *)
Definition dquote : string := String "034"%char EmptyString.

(* ================================================================= *)
(** ** Types ([src/types]) *)

Inductive NodeType := sales | order | upsell | downsell | thankyou.

Definition NodeType_eqb (a b : NodeType) : bool :=
  match a, b with
  | sales, sales | order, order | upsell, upsell
  | downsell, downsell | thankyou, thankyou => true
  | _, _ => false
  end.

(** The string a [NodeType] is at run time. *)
Definition NodeType_text (t : NodeType) : string :=
  match t with
  | sales => "sales"
  | order => "order"
  | upsell => "upsell"
  | downsell => "downsell"
  | thankyou => "thankyou"
  end.

(** The entries of [NODE_CONFIGS] the store reads; [color], [icon] and
    [description] are only read by the presentation components. *)
Record NodeConfig := {
  cfg_label : string;
  cfg_buttonLabel : string
}.

Definition NODE_CONFIGS (t : NodeType) : NodeConfig :=
  match t with
  | sales =>
      {| cfg_label := "Sales Page"; cfg_buttonLabel := "Buy Now" |}
  | order =>
      {| cfg_label := "Order Page"; cfg_buttonLabel := "Complete Order" |}
  | upsell =>
      {| cfg_label := "Upsell"; cfg_buttonLabel := "Yes, Add This!" |}
  | downsell =>
      {| cfg_label := "Downsell"; cfg_buttonLabel := "Get This Instead" |}
  | thankyou =>
      {| cfg_label := "Thank You"; cfg_buttonLabel := "Continue" |}
  end.

Record Position := { pos_x : Z; pos_y : Z }.

(** [FunnelNodeData]; the optional [hasWarning] and [warningMessage] are
    never written by the store and are left out. *)
Record FunnelNodeData := {
  data_type : NodeType;
  data_label : string;
  data_buttonLabel : string
}.

(** [FunnelNode = Node<FunnelNodeData>], with the fields [addNode] writes. *)
Record FunnelNode := {
  node_id : string;
  node_type : string;
  node_position : Position;
  node_data : FunnelNodeData
}.

(** reactflow's [Connection]. *)
Record Connection := {
  conn_source : nullable;
  conn_target : nullable;
  conn_sourceHandle : nullable;
  conn_targetHandle : nullable
}.

Inductive MarkerType := Arrow | ArrowClosed.

Definition MarkerType_text (m : MarkerType) : string :=
  match m with
  | Arrow => "arrow"
  | ArrowClosed => "arrowclosed"
  end.

Record EdgeMarker := { marker_type : MarkerType; marker_color : string }.

Record EdgeStyle := { style_stroke : string; style_strokeWidth : Z }.

(** [FunnelEdge = Edge], with the fields [onConnect] writes.  [source] and
    [target] are nullable at run time: [onConnect] copies them from the
    connection behind a non-null assertion that checks nothing. *)
Record FunnelEdge := {
  edge_id : string;
  edge_source : nullable;
  edge_target : nullable;
  edge_sourceHandle : nullable;
  edge_targetHandle : nullable;
  edge_type : string;
  edge_animated : bool;
  edge_markerEnd : EdgeMarker;
  edge_style : EdgeStyle
}.

Inductive IssueType := error | warning.

Record ValidationIssue := {
  issue_type : IssueType;
  issue_message : string;
  issue_nodeId : nullable   (* [None]: the issue names no node *)
}.

(** [FunnelState]: the snapshot (nodes, edges, counters). *)
Record FunnelState := {
  nodes : list FunnelNode;
  edges : list FunnelEdge;
  nodeCounters : NodeType -> nat
}.

(* ================================================================= *)
(** ** The store ([src/store/funnelStore.ts]) *)

Definition getInitialCounters : NodeType -> nat := fun _ => 0.

(** The state the store is created with. *)
Definition initialState : FunnelState :=
  {| nodes := []; edges := []; nodeCounters := getInitialCounters |}.

(** *** [addEdge], from the reactflow package

    The store imports [addEdge] from reactflow; these are the package's
    [connectionExists] and [addEdge] on the edges the store hands them. *)

(** [!x] for [x : string | null]. *)
Definition falsy (x : nullable) : bool :=
  match x with
  | Some s => String.eqb s ""
  | None => true
  end.

(** [a === b || (!a && !b)], the test on two handles. *)
Definition sameHandle (a b : nullable) : bool :=
  nullable_eqb a b || (falsy a && falsy b).

(** The test [connectionExists] makes on an edge [el] of the list: it has
    the source, the target and the handles of [edge]. *)
Definition sameConnection (el edge : FunnelEdge) : bool :=
  nullable_eqb (edge_source el) (edge_source edge)
  && nullable_eqb (edge_target el) (edge_target edge)
  && sameHandle (edge_sourceHandle el) (edge_sourceHandle edge)
  && sameHandle (edge_targetHandle el) (edge_targetHandle edge).

(** [connectionExists (edge, edges)] *)
Definition connectionExists (edge : FunnelEdge) (es : list FunnelEdge)
  : bool :=
  existsb (fun el => sameConnection el edge) es.

(** [addEdge (edgeParams, edges)].  The list comes back as it is when the
    source or the target is falsy (the package logs its error 006) and when
    the connection is already there; otherwise the edge is put at the end.
    [edgeParams] has an [id], so it is kept as the edge (the package copies
    it and generates no id). *)
Definition addEdge (edgeParams : FunnelEdge) (es : list FunnelEdge)
  : list FunnelEdge :=
  if falsy (edge_source edgeParams) || falsy (edge_target edgeParams) then es
  else if connectionExists edgeParams es then es
  else es ++ [edgeParams].

(** [nodes.find ((n) => n.id === connection.source)] *)
Definition findSource (connection : Connection) (ns : list FunnelNode)
  : option FunnelNode :=
  find (fun n => nullable_eqb (Some (node_id n)) (conn_source connection)) ns.

(** [sourceNode?.data.type === t] *)
Definition sourceIs (t : NodeType) (sourceNode : option FunnelNode) : bool :=
  match sourceNode with
  | Some n => NodeType_eqb (data_type (node_data n)) t
  | None => false
  end.

(** The edge [onConnect] builds. *)
Definition newEdge (connection : Connection) : FunnelEdge :=
  {| edge_id := "e" ++ nullable_text (conn_source connection) ++ "-"
                    ++ nullable_text (conn_target connection);
     edge_source := conn_source connection;
     edge_target := conn_target connection;
     edge_sourceHandle := conn_sourceHandle connection;
     edge_targetHandle := conn_targetHandle connection;
     edge_type := "smoothstep";
     edge_animated := true;
     edge_markerEnd :=
       {| marker_type := ArrowClosed; marker_color := "#6366f1" |};
     edge_style := {| style_stroke := "#6366f1"; style_strokeWidth := 2 |} |}.

Definition onConnect (connection : Connection) (st : FunnelState)
  : FunnelState :=
  let sourceNode := findSource connection (nodes st) in
  if sourceIs thankyou sourceNode then st
  else
    {| nodes := nodes st;
       edges := addEdge (newEdge connection) (edges st);
       nodeCounters := nodeCounters st |}.

(** What [onConnect] writes with [console.warn]. *)
Definition onConnect_warnings (connection : Connection) (st : FunnelState)
  : list string :=
  let sourceNode := findSource connection (nodes st) in
  if sourceIs thankyou sourceNode then
    ["Thank You page cannot have outgoing connections"]
  else if sourceIs sales sourceNode then
    let existingEdges :=
      filter (fun e => nullable_eqb (edge_source e) (conn_source connection))
             (edges st) in
    if Nat.leb 1 (length existingEdges) then
      ["Sales Page should have only one outgoing edge"]
    else []
  else [].

(** The label [addNode] generates when the counter of [type] becomes
    [newCount]. *)
Definition newLabel (type : NodeType) (newCount : nat) : string :=
  let config := NODE_CONFIGS type in
  match type with
  | sales | order | thankyou => cfg_label config
  | upsell | downsell =>
      cfg_label config ++ " " ++ Number_toString (Z.of_nat newCount)
  end.

(** The node [addNode] builds in state [st]. *)
Definition newNode (type : NodeType) (position : Position) (now : Z)
    (st : FunnelState) : FunnelNode :=
  let config := NODE_CONFIGS type in
  let newCount := nodeCounters st type + 1 in
  {| node_id := NodeType_text type ++ "-" ++ Number_toString now;
     node_type := "funnelNode";
     node_position := position;
     node_data := {| data_type := type;
                     data_label := newLabel type newCount;
                     data_buttonLabel := cfg_buttonLabel config |} |}.

Definition addNode (type : NodeType) (position : Position) (now : Z)
    (st : FunnelState) : FunnelState :=
  let newCount := nodeCounters st type + 1 in
  {| nodes := nodes st ++ [newNode type position now st];
     edges := edges st;
     nodeCounters :=
       fun t => if NodeType_eqb t type then newCount else nodeCounters st t |}.

Definition deleteNode (nodeId : string) (st : FunnelState) : FunnelState :=
  {| nodes := filter (fun n => negb (String.eqb (node_id n) nodeId)) (nodes st);
     edges := filter (fun e => negb (nullable_is (edge_source e) nodeId)
                               && negb (nullable_is (edge_target e) nodeId))
                     (edges st);
     nodeCounters := nodeCounters st |}.

Definition deleteEdge (edgeId : string) (st : FunnelState) : FunnelState :=
  {| nodes := nodes st;
     edges := filter (fun e => negb (String.eqb (edge_id e) edgeId)) (edges st);
     nodeCounters := nodeCounters st |}.

(** [{ ...node, data: { ...node.data, label } }] *)
Definition withLabel (label : string) (node : FunnelNode) : FunnelNode :=
  {| node_id := node_id node;
     node_type := node_type node;
     node_position := node_position node;
     node_data :=
       {| data_type := data_type (node_data node);
          data_label := label;
          data_buttonLabel := data_buttonLabel (node_data node) |} |}.

Definition updateNodeLabel (nodeId label : string) (st : FunnelState)
  : FunnelState :=
  {| nodes := map (fun node => if String.eqb (node_id node) nodeId
                               then withLabel label node else node)
                  (nodes st);
     edges := edges st;
     nodeCounters := nodeCounters st |}.

(** [edges.some ((e) => e.target === node.id)] *)
Definition hasIncoming (es : list FunnelEdge) (node : FunnelNode) : bool :=
  existsb (fun e => nullable_is (edge_target e) (node_id node)) es.

(** [edges.some ((e) => e.source === node.id)] *)
Definition hasOutgoing (es : list FunnelEdge) (node : FunnelNode) : bool :=
  existsb (fun e => nullable_is (edge_source e) (node_id node)) es.

(** [edges.filter ((e) => e.source === node.id)] *)
Definition outgoing (es : list FunnelEdge) (node : FunnelNode)
  : list FunnelEdge :=
  filter (fun e => nullable_is (edge_source e) (node_id node)) es.

Definition quoted (label : string) : string := dquote ++ label ++ dquote.

Definition nodeIssue (t : IssueType) (node : FunnelNode) (text : string)
  : ValidationIssue :=
  {| issue_type := t;
     issue_message := quoted (data_label (node_data node)) ++ text;
     issue_nodeId := Some (node_id node) |}.

Definition isType (t : NodeType) (n : FunnelNode) : bool :=
  NodeType_eqb (data_type (node_data n)) t.

(** The four passes of [getValidationIssues]; each [forEach] that pushes
    issues is a [flat_map] in node order. *)
Definition orphanIssues (ns : list FunnelNode) (es : list FunnelEdge)
  : list ValidationIssue :=
  flat_map (fun node =>
    if negb (hasIncoming es node) && negb (hasOutgoing es node)
       && Nat.ltb 1 (length ns)
    then [nodeIssue warning node " is disconnected"]
    else []) ns.

Definition salesIssues (ns : list FunnelNode) (es : list FunnelEdge)
  : list ValidationIssue :=
  let salesNodes := filter (isType sales) ns in
  flat_map (fun node =>
    let out := outgoing es node in
    (if Nat.ltb 1 (length out)
     then [nodeIssue warning node
             " has multiple outgoing connections (should have 1)"]
     else [])
    ++
    (if Nat.eqb (length out) 0 && Nat.ltb 1 (length ns)
     then [nodeIssue warning node " has no outgoing connection"]
     else [])) salesNodes.

Definition thankYouIssues (ns : list FunnelNode) (es : list FunnelEdge)
  : list ValidationIssue :=
  let thankYouNodes := filter (isType thankyou) ns in
  flat_map (fun node =>
    let out := outgoing es node in
    if Nat.ltb 0 (length out)
    then [nodeIssue error node " should not have outgoing connections"]
    else []) thankYouNodes.

Definition entryPointIssues (ns : list FunnelNode) (es : list FunnelEdge)
  : list ValidationIssue :=
  let entryPoints :=
    filter (fun node => negb (hasIncoming es node)
                        && negb (isType thankyou node)) ns in
  if Nat.ltb 1 (length entryPoints) && Nat.ltb 1 (length ns)
  then [ {| issue_type := warning;
            issue_message :=
              "Funnel has " ++ Number_toString (Z.of_nat (length entryPoints))
              ++ " entry points (usually should be 1)";
            issue_nodeId := None |} ]
  else [].

Definition getValidationIssues (st : FunnelState) : list ValidationIssue :=
  orphanIssues (nodes st) (edges st)
  ++ salesIssues (nodes st) (edges st)
  ++ thankYouIssues (nodes st) (edges st)
  ++ entryPointIssues (nodes st) (edges st).

(* ================================================================= *)
(** ** The node editor ([components/nodes/FunnelNode.tsx]) *)

Section NodeEditor.

(** [String.prototype.trim], a built-in of the host. *)
Variable trim : string -> string.

(** [handleBlur] of the node whose props are [id] and [data.label =
    dataLabel], with [editLabel] in the input.  Leaving edit mode is local
    to the component; the store is touched only through
    [updateNodeLabel]. *)
Definition handleBlur (id dataLabel editLabel : string) (st : FunnelState)
  : FunnelState :=
  if negb (String.eqb (trim editLabel) "")
     && negb (String.eqb editLabel dataLabel)
  then updateNodeLabel id (trim editLabel) st
  else st.

End NodeEditor.

(** White space of the ASCII range, as [trim] strips it. *)
Definition isAsciiSpace (c : ascii) : bool :=
  let n := nat_of_ascii c in
  (Nat.leb 9 n && Nat.leb n 13) || Nat.eqb n 32.

Fixpoint trimStart (s : string) : string :=
  match s with
  | String c r => if isAsciiSpace c then trimStart r else s
  | EmptyString => EmptyString
  end.

(** [s] without its trailing white space. *)
Fixpoint trimEnd (s : string) : string :=
  match s with
  | String c r =>
      match trimEnd r with
      | EmptyString =>
          if isAsciiSpace c then EmptyString else String c EmptyString
      | r' => String c r'
      end
  | EmptyString => EmptyString
  end.

(** [trim] on text whose white space is ASCII. *)
Definition trimAscii (s : string) : string := trimEnd (trimStart s).

(* ================================================================= *)
(** ** Sequences of store actions *)

Inductive Action :=
| AddNode (type : NodeType) (position : Position) (now : Z)
| DeleteNode (nodeId : string)
| DeleteEdge (edgeId : string)
| Connect (connection : Connection)
| UpdateNodeLabel (nodeId label : string).

Definition perform (a : Action) (st : FunnelState) : FunnelState :=
  match a with
  | AddNode type position now => addNode type position now st
  | DeleteNode nodeId => deleteNode nodeId st
  | DeleteEdge edgeId => deleteEdge edgeId st
  | Connect connection => onConnect connection st
  | UpdateNodeLabel nodeId label => updateNodeLabel nodeId label st
  end.

Fixpoint run (acts : list Action) (st : FunnelState) : FunnelState :=
  match acts with
  | [] => st
  | a :: rest => run rest (perform a st)
  end.

(** A node made by [addNode], with the counter value its label was made
    from. *)
Record Creation := {
  made : FunnelNode;
  ordinal : nat
}.

(** The nodes created along [acts], oldest first. *)
Fixpoint creations (acts : list Action) (st : FunnelState) : list Creation :=
  match acts with
  | [] => []
  | a :: rest =>
      match a with
      | AddNode type position now =>
          [ {| made := newNode type position now st;
               ordinal := nodeCounters st type + 1 |} ]
      | _ => []
      end ++ creations rest (perform a st)
  end.

(** The category and clock reading of every [addNode] call in [acts]. *)
Fixpoint stamps (acts : list Action) : list (NodeType * Z) :=
  match acts with
  | [] => []
  | AddNode type _ now :: rest => (type, now) :: stamps rest
  | _ :: rest => stamps rest
  end.

Definition repeatable (t : NodeType) : bool :=
  match t with
  | upsell | downsell => true
  | _ => false
  end.

(** The node the store resolves an id to: the first one carrying it. *)
Definition nodeWithId (a : string) (st : FunnelState) : option FunnelNode :=
  find (fun n => String.eqb (node_id n) a) (nodes st).

(** [a] is the id of a node of [st]. *)
Definition hasNode (a : nullable) (st : FunnelState) : bool :=
  existsb (fun n => nullable_is a (node_id n)) (nodes st).

(** Every edge of [st] starts and ends at a node of [st]. *)
Definition edgesClosed (st : FunnelState) : bool :=
  forallb (fun e => hasNode (edge_source e) st && hasNode (edge_target e) st)
          (edges st).

(** A [connect] between two nodes that are on the canvas. *)
Definition connectsPresent (a : Action) (st : FunnelState) : bool :=
  match a with
  | Connect c => hasNode (conn_source c) st && hasNode (conn_target c) st
  | _ => true
  end.

(** Every [connect] of [acts] joins nodes present when it is made. *)
Fixpoint drawnOnCanvas (acts : list Action) (st : FunnelState) : bool :=
  match acts with
  | [] => true
  | a :: rest => connectsPresent a st && drawnOnCanvas rest (perform a st)
  end.

(** The id [addNode] gives to a node of category [type] made at clock
    reading [now]. *)
Definition stampId (stamp : NodeType * Z) : string :=
  NodeType_text (fst stamp) ++ "-" ++ Number_toString (snd stamp).

Definition creationType (c : Creation) : NodeType :=
  data_type (node_data (made c)).

Definition creationLabel (c : Creation) : string :=
  data_label (node_data (made c)).

(* ================================================================= *)
(** ** A sample canvas *)

(** The canvas of the spec's scenario: a Sales Page created at clock reading
    1000 and a Thank You page created at 1001. *)
Definition scenario : FunnelState :=
  run [ AddNode sales {| pos_x := 0; pos_y := 0 |} 1000;
        AddNode thankyou {| pos_x := 0; pos_y := 200 |} 1001 ] initialState.

(** An Upsell made and deleted, then an Upsell and a Downsell made at the
    same clock reading. *)
Definition sampleActions : list Action :=
  [ AddNode upsell {| pos_x := 0; pos_y := 0 |} 1000;
    DeleteNode "upsell-1000";
    AddNode upsell {| pos_x := 0; pos_y := 0 |} 1001;
    AddNode downsell {| pos_x := 0; pos_y := 0 |} 1001 ].

(** A connection between two ids, on the default handles. *)
Definition link (a b : string) : Connection :=
  {| conn_source := Some a; conn_target := Some b;
     conn_sourceHandle := None; conn_targetHandle := None |}.

(** A connection between two ids that leaves the source by the handle
    [handle]. *)
Definition linkOn (handle a b : string) : Connection :=
  {| conn_source := Some a; conn_target := Some b;
     conn_sourceHandle := Some handle; conn_targetHandle := None |}.

(* ================================================================= *)
(** ** JSON values *)

(** The values [JSON.parse] returns, numbers being integers: a value that
    holds a fraction, and the NaN and infinite numbers that only the heap
    can hold (and that [JSON.stringify] writes as [null]), have no
    counterpart here.  An object is its list of own properties in
    insertion order; a well-formed one lists a key once. *)
Unset Elimination Schemes.
Inductive json :=
| JNull
| JBool (b : bool)
| JNumber (z : Z)
| JString (s : string)
| JArray (items : list json)
| JObject (members : list (string * json)).
Set Elimination Schemes.

(** [Array.isArray]; [None] stands for [undefined]. *)
Definition asArray (v : option json) : option (list json) :=
  match v with
  | Some (JArray items) => Some items
  | _ => None
  end.

(** Truthiness, as [||] tests it. *)
Definition truthy (v : option json) : bool :=
  match v with
  | None | Some JNull => false
  | Some (JBool b) => b
  | Some (JNumber z) => negb (Z.eqb z 0)
  | Some (JString s) => negb (String.eqb s "")
  | Some (JArray _) | Some (JObject _) => true
  end.

Fixpoint lookup (key : string) (members : list (string * json)) : option json :=
  match members with
  | [] => None
  | (k, v) :: rest => if String.eqb k key then Some v else lookup key rest
  end.

(** [v[key]] for a key that is no built-in property: the member of an
    object, [undefined] on any other value. *)
Definition field (v : json) (key : string) : option json :=
  match v with
  | JObject members => lookup key members
  | _ => None
  end.

(** [const { nodes, edges, nodeCounters } = v]: destructuring [null] throws
    a TypeError ([None]); every other value yields the three properties. *)
Definition destructure (v : json)
  : option (option json * option json * option json) :=
  match v with
  | JNull => None
  | _ => Some (field v "nodes", field v "edges", field v "nodeCounters")
  end.

(** Writing a property: a key already there keeps its place. *)
Fixpoint setMember (key : string) (v : json) (members : list (string * json))
  : list (string * json) :=
  match members with
  | [] => [(key, v)]
  | (k, old) :: rest =>
      if String.eqb k key then (k, v) :: rest
      else (k, old) :: setMember key v rest
  end.

Definition objectOf (written : list (string * json)) : list (string * json) :=
  fold_left (fun members kv => setMember (fst kv) (snd kv) members) written [].

Fixpoint distinctKeys (keys : list string) : bool :=
  match keys with
  | [] => true
  | k :: rest => negb (existsb (String.eqb k) rest) && distinctKeys rest
  end.

(** No object of [v] lists a key twice. *)
Fixpoint wellFormed (v : json) : bool :=
  match v with
  | JArray items => forallb wellFormed items
  | JObject members =>
      distinctKeys (map fst members)
      && forallb (fun '(_, m) => wellFormed m) members
  | _ => true
  end.

(** Number of values in [v], itself included. *)
Fixpoint weight (v : json) : nat :=
  match v with
  | JArray items => S (list_sum (map weight items))
  | JObject members => S (list_sum (map (fun '(_, m) => weight m) members))
  | _ => 1
  end.

(* ================================================================= *)
(** ** The host's JSON built-ins *)

(** [JSON.parse] ([None]: a SyntaxError is thrown) and
    [JSON.stringify (value, null, space)]. *)
Class JSONHost := {
  JSON_parse : string -> option json;
  JSON_stringify : json -> nat -> string
}.

(** *** A reference implementation: serialization *)

Definition newline : string := String "010"%char EmptyString.

Definition hexDigit (n : nat) : ascii :=
  match get n "0123456789abcdef" with
  | Some c => c
  | None => "0"%char
  end.

(** The text of one character inside a JSON string (QuoteJSONString). *)
Definition escapeChar (c : ascii) : string :=
  let n := nat_of_ascii c in
  if Nat.eqb n 34 then "\" ++ dquote
  else if Nat.eqb n 92 then "\\"
  else if Nat.eqb n 8 then "\b"
  else if Nat.eqb n 9 then "\t"
  else if Nat.eqb n 10 then "\n"
  else if Nat.eqb n 12 then "\f"
  else if Nat.eqb n 13 then "\r"
  else if Nat.ltb n 32 then
    "\u00" ++ String (hexDigit (n / 16)) (String (hexDigit (n mod 16)) "")
  else String c "".

Fixpoint escape (s : string) : string :=
  match s with
  | EmptyString => EmptyString
  | String c r => escapeChar c ++ escape r
  end.

Definition QuoteJSONString (s : string) : string :=
  dquote ++ escape s ++ dquote.

Fixpoint joinWith (sep : string) (parts : list string) : string :=
  match parts with
  | [] => ""
  | [p] => p
  | p :: rest => p ++ sep ++ joinWith sep rest
  end.

Fixpoint spaces (n : nat) : string :=
  match n with
  | O => ""
  | S m => String " " (spaces m)
  end.

(** The line break and indentation put before an item; nothing when the
    gap is empty. *)
Definition lineBreak (gap indent : string) : string :=
  if String.eqb gap "" then "" else newline ++ indent.

(** The blank after a colon; nothing when the gap is empty. *)
Definition colonGap (gap : string) : string :=
  if String.eqb gap "" then "" else " ".

(** SerializeJSONProperty, with the current [indent]. *)
Fixpoint serialize (gap indent : string) (v : json) {struct v} : string :=
  match v with
  | JNull => "null"
  | JBool b => if b then "true" else "false"
  | JNumber z => Number_toString z
  | JString s => QuoteJSONString s
  | JArray items =>
      match items with
      | [] => "[]"
      | _ =>
          "[" ++ lineBreak gap (indent ++ gap)
          ++ joinWith ("," ++ lineBreak gap (indent ++ gap))
                      (map (serialize gap (indent ++ gap)) items)
          ++ lineBreak gap indent ++ "]"
      end
  | JObject members =>
      match members with
      | [] => "{}"
      | _ =>
          "{" ++ lineBreak gap (indent ++ gap)
          ++ joinWith ("," ++ lineBreak gap (indent ++ gap))
                      (map (fun '(k, m) =>
                              (QuoteJSONString k ++ ":" ++ colonGap gap
                               ++ serialize gap (indent ++ gap) m)%string)
                           members)
          ++ lineBreak gap indent ++ "}"
      end
  end.

(** [JSON.stringify (v, null, space)]: the gap is [space] blanks, ten at
    most. *)
Definition stringify (v : json) (space : nat) : string :=
  serialize (spaces (Nat.min space 10)) "" v.

(** *** A reference implementation: parsing *)

Definition isWs (c : ascii) : bool :=
  let n := nat_of_ascii c in
  Nat.eqb n 32 || Nat.eqb n 9 || Nat.eqb n 10 || Nat.eqb n 13.

Fixpoint skipWs (s : string) : string :=
  match s with
  | String c r => if isWs c then skipWs r else s
  | EmptyString => EmptyString
  end.

Definition digitOf (c : ascii) : option (Decimal.uint -> Decimal.uint) :=
  match nat_of_ascii c with
  | 48 => Some Decimal.D0
  | 49 => Some Decimal.D1
  | 50 => Some Decimal.D2
  | 51 => Some Decimal.D3
  | 52 => Some Decimal.D4
  | 53 => Some Decimal.D5
  | 54 => Some Decimal.D6
  | 55 => Some Decimal.D7
  | 56 => Some Decimal.D8
  | 57 => Some Decimal.D9
  | _ => None
  end.

(** The longest run of digits at the head of [s], and what follows it. *)
Fixpoint takeDigits (s : string) : Decimal.uint * string :=
  match s with
  | String c r =>
      match digitOf c with
      | Some d => let '(u, r') := takeDigits r in (d u, r')
      | None => (Decimal.Nil, s)
      end
  | EmptyString => (Decimal.Nil, EmptyString)
  end.

(** An integer part is [0] or starts with a digit from 1 to 9. *)
Definition integerPart (u : Decimal.uint) : bool :=
  match u with
  | Decimal.Nil => false
  | Decimal.D0 Decimal.Nil => true
  | Decimal.D0 _ => false
  | _ => true
  end.

Definition parseFraction (s : string) : option (Decimal.uint * string) :=
  match s with
  | String c r =>
      if Ascii.eqb c "." then
        match takeDigits r with
        | (Decimal.Nil, _) => None
        | (fs, r') => Some (fs, r')
        end
      else Some (Decimal.Nil, s)
  | EmptyString => Some (Decimal.Nil, s)
  end.

Definition parseExponent (s : string) : option (Z * string) :=
  match s with
  | String c r =>
      if Ascii.eqb c "e" || Ascii.eqb c "E" then
        let '(negative, r1) :=
          match r with
          | String sign r' =>
              if Ascii.eqb sign "-" then (true, r')
              else if Ascii.eqb sign "+" then (false, r')
              else (false, r)
          | EmptyString => (false, r)
          end in
        match takeDigits r1 with
        | (Decimal.Nil, _) => None
        | (es, r2) =>
            Some (if negative then (- Z.of_uint es)%Z else Z.of_uint es, r2)
        end
      else Some (0%Z, s)
  | EmptyString => Some (0%Z, s)
  end.

(** [m * 10 ^ e] when that is an integer.  A literal with another value has
    no counterpart among the numbers of this model, and the reference
    parser gives up on it. *)
Definition scaled (m e : Z) : option Z :=
  if (0 <=? e)%Z then Some (m * 10 ^ e)%Z
  else if (m mod 10 ^ (- e) =? 0)%Z then Some (m / 10 ^ (- e))%Z
  else None.

(** An unsigned number literal at the head of [s]. *)
Definition parseMagnitude (s : string) : option (Z * string) :=
  let '(ds, s2) := takeDigits s in
  if integerPart ds then
    match parseFraction s2 with
    | Some (fs, s3) =>
        match parseExponent s3 with
        | Some (e, s4) =>
            match scaled (Z.of_uint (Decimal.app ds fs))
                         (e - Z.of_nat (Decimal.nb_digits fs)) with
            | Some m => Some (m, s4)
            | None => None
            end
        | None => None
        end
    | None => None
    end
  else None.

Definition parseNumber (s : string) : option (Z * string) :=
  match s with
  | String c r =>
      if Ascii.eqb c "-" then
        match parseMagnitude r with
        | Some (m, rest) => Some ((- m)%Z, rest)
        | None => None
        end
      else parseMagnitude s
  | EmptyString => None
  end.

Definition hexVal (c : ascii) : option nat :=
  let n := nat_of_ascii c in
  if Nat.leb 48 n && Nat.leb n 57 then Some (n - 48)
  else if Nat.leb 97 n && Nat.leb n 102 then Some (n - 87)
  else if Nat.leb 65 n && Nat.leb n 70 then Some (n - 55)
  else None.

(** The UTF-8 bytes of the code unit [n] of a [\u] escape. *)
Definition utf8 (n : nat) : string :=
  if Nat.ltb n 128 then String (ascii_of_nat n) ""
  else if Nat.ltb n 2048 then
    String (ascii_of_nat (192 + n / 64))
      (String (ascii_of_nat (128 + n mod 64)) "")
  else
    String (ascii_of_nat (224 + n / 4096))
      (String (ascii_of_nat (128 + (n / 64) mod 64))
         (String (ascii_of_nat (128 + n mod 64)) "")).

Definition unescape (e : ascii) : option ascii :=
  match nat_of_ascii e with
  | 34 => Some "034"%char
  | 92 => Some "\"%char
  | 47 => Some "/"%char
  | 98 => Some "008"%char
  | 102 => Some "012"%char
  | 110 => Some "010"%char
  | 114 => Some "013"%char
  | 116 => Some "009"%char
  | _ => None
  end.

(** The characters of a string literal after its opening quote, up to the
    closing quote, and what follows. *)
Fixpoint parseChars (s : string) : option (string * string) :=
  match s with
  | EmptyString => None
  | String c r =>
      if Nat.eqb (nat_of_ascii c) 34 then Some (EmptyString, r)
      else if Nat.eqb (nat_of_ascii c) 92 then
        match r with
        | String e r1 =>
            if Ascii.eqb e "u" then
              match r1 with
              | String h1 (String h2 (String h3 (String h4 r2))) =>
                  match hexVal h1, hexVal h2, hexVal h3, hexVal h4 with
                  | Some a, Some b, Some c', Some d =>
                      match parseChars r2 with
                      | Some (t, rest) =>
                          Some ((utf8 (((a * 16 + b) * 16 + c') * 16 + d)
                                 ++ t)%string, rest)
                      | None => None
                      end
                  | _, _, _, _ => None
                  end
              | _ => None
              end
            else
              match unescape e with
              | Some x =>
                  match parseChars r1 with
                  | Some (t, rest) => Some (String x t, rest)
                  | None => None
                  end
              | None => None
              end
        | EmptyString => None
        end
      else if Nat.ltb (nat_of_ascii c) 32 then None
      else
        match parseChars r with
        | Some (t, rest) => Some (String c t, rest)
        | None => None
        end
  end.

(** [lit] at the head of [s]. *)
Fixpoint expect (lit s : string) : option string :=
  match lit with
  | EmptyString => Some s
  | String c lit' =>
      match s with
      | String d r => if Ascii.eqb c d then expect lit' r else None
      | EmptyString => None
      end
  end.

(** The items of an array after the first has been seen to be there, with
    [value] parsing one item; [n] bounds their number. *)
Fixpoint parseItems (value : string -> option (json * string)) (n : nat)
    (s : string) : option (list json * string) :=
  match n with
  | O => None
  | S n' =>
      match value s with
      | Some (v, r) =>
          match skipWs r with
          | String c r' =>
              if Ascii.eqb c "," then
                match parseItems value n' r' with
                | Some (vs, rest) => Some (v :: vs, rest)
                | None => None
                end
              else if Ascii.eqb c "]" then Some ([v], r')
              else None
          | EmptyString => None
          end
      | None => None
      end
  end.

(** The members of an object, in the order of the text. *)
Fixpoint parseMembers (value : string -> option (json * string)) (n : nat)
    (s : string) : option (list (string * json) * string) :=
  match n with
  | O => None
  | S n' =>
      match skipWs s with
      | String q r =>
          if Nat.eqb (nat_of_ascii q) 34 then
            match parseChars r with
            | Some (k, r1) =>
                match skipWs r1 with
                | String c r2 =>
                    if Ascii.eqb c ":" then
                      match value r2 with
                      | Some (v, r3) =>
                          match skipWs r3 with
                          | String d r4 =>
                              if Ascii.eqb d "," then
                                match parseMembers value n' r4 with
                                | Some (ms, rest) => Some ((k, v) :: ms, rest)
                                | None => None
                                end
                              else if Ascii.eqb d "}" then Some ([(k, v)], r4)
                              else None
                          | EmptyString => None
                          end
                      | None => None
                      end
                    else None
                | EmptyString => None
                end
            | None => None
            end
          else None
      | EmptyString => None
      end
  end.

(** One JSON value at the head of [s], which starts with no white space,
    and the text after it.  [value] parses a nested value and [n] bounds
    the number of items of a collection. *)
Definition parseAt (value : string -> option (json * string)) (n : nat)
    (s : string) : option (json * string) :=
  match s with
  | EmptyString => None
  | String c r =>
      if Ascii.eqb c "{" then
        match skipWs r with
        | String d r' =>
            if Ascii.eqb d "}" then Some (JObject [], r')
            else
              match parseMembers value n r with
              | Some (ms, rest) => Some (JObject (objectOf ms), rest)
              | None => None
              end
        | EmptyString => None
        end
      else if Ascii.eqb c "[" then
        match skipWs r with
        | String d r' =>
            if Ascii.eqb d "]" then Some (JArray [], r')
            else
              match parseItems value n r with
              | Some (vs, rest) => Some (JArray vs, rest)
              | None => None
              end
        | EmptyString => None
        end
      else if Nat.eqb (nat_of_ascii c) 34 then
        match parseChars r with
        | Some (t, rest) => Some (JString t, rest)
        | None => None
        end
      else if Ascii.eqb c "t" then
        option_map (fun rest => (JBool true, rest)) (expect "rue" r)
      else if Ascii.eqb c "f" then
        option_map (fun rest => (JBool false, rest)) (expect "alse" r)
      else if Ascii.eqb c "n" then
        option_map (fun rest => (JNull, rest)) (expect "ull" r)
      else
        match parseNumber s with
        | Some (z, rest) => Some (JNumber z, rest)
        | None => None
        end
  end.

(** One JSON value at the head of [s], white space before it skipped.
    [fuel] bounds the nesting and the number of items of a collection. *)
Fixpoint parseValue (fuel : nat) (s : string) {struct fuel}
  : option (json * string) :=
  match fuel with
  | O => None
  | S fuel' => parseAt (parseValue fuel') fuel' (skipWs s)
  end.

(** [JSON.parse]: one value, and nothing but white space after it.  The
    reference parser is meant for the texts the reference [stringify]
    writes, which it reads back exactly, and for plain texts like them.  It
    departs from the built-in on other texts: it gives up on a number
    literal whose value is no integer and keeps every integer exact
    (beyond 2^53 and beyond the largest double too), it keeps the keys of
    an object in the order of the text (the built-in moves keys that are
    array indices to the front), and it decodes each [\u] escape on its
    own (surrogate pairs are not joined). *)
Definition parse (text : string) : option json :=
  match parseValue (S (String.length text)) text with
  | Some (v, rest) =>
      match skipWs rest with
      | EmptyString => Some v
      | _ => None
      end
  | None => None
  end.

#[export] Instance referenceJSON : JSONHost :=
  {| JSON_parse := parse; JSON_stringify := stringify |}.

(** *** Predicates on text, for the round trip *)

Fixpoint allWs (s : string) : bool :=
  match s with
  | EmptyString => true
  | String c r => isWs c && allWs r
  end.

(** A character that can continue a number literal. *)
Definition numberChar (c : ascii) : bool :=
  match digitOf c with
  | Some _ => true
  | None => Ascii.eqb c "." || Ascii.eqb c "e" || Ascii.eqb c "E"
  end.

(** A number literal right before [s] ends there. *)
Definition numberEnds (s : string) : bool :=
  match s with
  | EmptyString => true
  | String c _ => negb (numberChar c)
  end.

(** [s] starts like a number literal. *)
Definition numberHead (s : string) : bool :=
  match s with
  | EmptyString => false
  | String c _ =>
      Ascii.eqb c "-" || match digitOf c with Some _ => true | None => false end
  end.

(** [s] starts with a character that is neither white space nor a closing
    bracket. *)
Definition valueHead (s : string) : bool :=
  match s with
  | EmptyString => false
  | String c _ => negb (isWs c) && negb (Ascii.eqb c "]")
  end.

(* ================================================================= *)
(** ** Persistence ([saveToStorage], [exportJSON], [importJSON]) *)

Definition nullableJson (a : nullable) : json :=
  match a with
  | Some s => JString s
  | None => JNull
  end.

(** The objects of the store as JSON values, keys in the order the object
    literals of the store write them. *)
Definition encodePosition (p : Position) : json :=
  JObject [("x", JNumber (pos_x p)); ("y", JNumber (pos_y p))].

Definition encodeData (d : FunnelNodeData) : json :=
  JObject [("type", JString (NodeType_text (data_type d)));
           ("label", JString (data_label d));
           ("buttonLabel", JString (data_buttonLabel d))].

Definition encodeNode (n : FunnelNode) : json :=
  JObject [("id", JString (node_id n));
           ("type", JString (node_type n));
           ("position", encodePosition (node_position n));
           ("data", encodeData (node_data n))].

Definition encodeEdge (e : FunnelEdge) : json :=
  JObject [("id", JString (edge_id e));
           ("source", nullableJson (edge_source e));
           ("target", nullableJson (edge_target e));
           ("sourceHandle", nullableJson (edge_sourceHandle e));
           ("targetHandle", nullableJson (edge_targetHandle e));
           ("type", JString (edge_type e));
           ("animated", JBool (edge_animated e));
           ("markerEnd",
            JObject [("type", JString (MarkerType_text
                                         (marker_type (edge_markerEnd e))));
                     ("color", JString (marker_color (edge_markerEnd e)))]);
           ("style",
            JObject [("stroke", JString (style_stroke (edge_style e)));
                     ("strokeWidth",
                      JNumber (style_strokeWidth (edge_style e)))])].

Definition encodeCounters (c : NodeType -> nat) : json :=
  JObject [("sales", JNumber (Z.of_nat (c sales)));
           ("order", JNumber (Z.of_nat (c order)));
           ("upsell", JNumber (Z.of_nat (c upsell)));
           ("downsell", JNumber (Z.of_nat (c downsell)));
           ("thankyou", JNumber (Z.of_nat (c thankyou)))].

(** The snapshot as the heap holds it.  TypeScript's types are erased at run
    time and [importJSON] checks only that [nodes] and [edges] are arrays,
    so the collections of an imported snapshot are arbitrary JSON values. *)
Record Snapshot := {
  snap_nodes : list json;
  snap_edges : list json;
  snap_nodeCounters : json
}.

(** The snapshot of a state built by the actions of the store. *)
Definition snapshotOf (st : FunnelState) : Snapshot :=
  {| snap_nodes := map encodeNode (nodes st);
     snap_edges := map encodeEdge (edges st);
     snap_nodeCounters := encodeCounters (nodeCounters st) |}.

(** [{ nodes, edges, nodeCounters }] *)
Definition snapshotJson (m : Snapshot) : json :=
  JObject [("nodes", JArray (snap_nodes m));
           ("edges", JArray (snap_edges m));
           ("nodeCounters", snap_nodeCounters m)].

(** [localStorage]: the item kept under each key, if any, and the writes
    the browser lets through.  [accepts items key value] tells whether
    [setItem (key, value)] goes through when the storage holds [items]; a
    browser refuses a write that would exceed the quota of the origin (a
    quota that is zero in some private windows), and [setItem] then throws
    a QuotaExceededError. *)
Record Storage := {
  items : string -> option string;
  accepts : (string -> option string) -> string -> string -> bool
}.

(** [getItem]: [None] is [null]. *)
Definition getItem (key : string) (ls : Storage) : option string :=
  items ls key.

(** The storage once [value] has been written under [key]. *)
Definition withItem (key value : string) (ls : Storage) : Storage :=
  {| items := fun k => if String.eqb k key then Some value else items ls k;
     accepts := accepts ls |}.

(** [setItem]: [None] when the browser refuses the write and throws. *)
Definition setItem (key value : string) (ls : Storage) : option Storage :=
  if accepts ls (items ls) key value then Some (withItem key value ls)
  else None.

Definition removeItem (key : string) (ls : Storage) : Storage :=
  {| items := fun k => if String.eqb k key then None else items ls k;
     accepts := accepts ls |}.

Definition STORAGE_KEY : string := "funnel-builder-state".

(** The in-memory snapshot together with the durable store. *)
Record Store := {
  memory : Snapshot;
  localStorage : Storage
}.

Section Persistence.

Context {host : JSONHost}.

(** [None]: the exception of [setItem] leaves [saveToStorage], which has
    no handler; nothing has been written. *)
Definition saveToStorage (s : Store) : option Store :=
  match setItem STORAGE_KEY (JSON_stringify (snapshotJson (memory s)) 0)
                (localStorage s) with
  | Some ls => Some {| memory := memory s; localStorage := ls |}
  | None => None
  end.


(** The result is the returned boolean and the store afterwards.  Each
    [throw] inside the [try] lands in the [catch], which returns [false]:
    a SyntaxError of [JSON.parse], a TypeError of the destructuring and the
    'Invalid format' error come before [set] and leave the store as it
    was; an exception of [saveToStorage] comes after [set], so the snapshot
    has been replaced when [false] is returned. *)
Definition importJSON (text : string) (s : Store) : bool * Store :=
  match JSON_parse text with
  | None => (false, s)
  | Some parsed =>
      match destructure parsed with
      | None => (false, s)
      | Some (nodes, edges, nodeCounters) =>
          match asArray nodes, asArray edges with
          | Some ns, Some es =>
              let counters :=
                match nodeCounters with
                | Some c =>
                    if truthy nodeCounters then c
                    else encodeCounters getInitialCounters
                | None => encodeCounters getInitialCounters
                end in
              let imported :=
                {| memory := {| snap_nodes := ns;
                                snap_edges := es;
                                snap_nodeCounters := counters |};
                   localStorage := localStorage s |} in
              match saveToStorage imported with
              | Some saved => (true, saved)
              | None => (false, imported)
              end
          | _, _ => (false, s)
          end
      end
  end.

Definition clearCanvas (s : Store) : Store :=
  {| memory := snapshotOf initialState;
     localStorage := removeItem STORAGE_KEY (localStorage s) |}.

End Persistence.

(** [value] reads the text [text v] of [v] back, after any white space and
    before any text that ends a number literal. *)
Definition parsesBack (value : string -> option (json * string))
    (text : json -> string) (v : json) : Prop :=
  forall w rest, allWs w = true -> numberEnds rest = true ->
                 value (w ++ text v ++ rest)%string = Some (v, rest).

(** The text of a member whose value has text [text m], with [gapc] after
    the colon. *)
Definition memberText (gapc : string) (text : json -> string)
    (km : string * json) : string :=
  let '(k, m) := km in (QuoteJSONString k ++ ":" ++ gapc ++ text m)%string.

(** A storage that holds nothing and lets every write through. *)
Definition emptyStorage : Storage :=
  {| items := fun _ => None; accepts := fun _ _ _ => true |}.

(** A storage without room: every write is refused. *)
Definition fullStorage : Storage :=
  {| items := fun _ => None; accepts := fun _ _ _ => false |}.

(** A store that holds the empty canvas and has nothing saved. *)
Definition emptyStore : Store :=
  {| memory := snapshotOf initialState; localStorage := emptyStorage |}.

(** The same store in a browser whose storage has no room. *)
Definition fullStore : Store :=
  {| memory := snapshotOf initialState; localStorage := fullStorage |}.


(* ================================================================= *)
(** ** More of the store and of its callers *)

(** The three fields of the store as [loadFromStorage] leaves them.  It
    hands [set] whatever the destructuring gave, so a field may be
    [undefined] ([None]) or any JSON value. *)
Record RawState := {
  raw_nodes : option json;
  raw_edges : option json;
  raw_nodeCounters : option json
}.

(** A snapshot among the raw states. *)
Definition rawOf (m : Snapshot) : RawState :=
  {| raw_nodes := Some (JArray (snap_nodes m));
     raw_edges := Some (JArray (snap_edges m));
     raw_nodeCounters := Some (snap_nodeCounters m) |}.

Section Loading.

Context {host : JSONHost}.

(** [loadFromStorage], from the fields [h] and the storage [ls], which it
    only reads.  [if (stored)] fails on [null] and on the empty string; a
    SyntaxError of [JSON.parse] and the TypeError of destructuring [null]
    are caught and logged. *)
Definition loadFromStorage (h : RawState) (ls : Storage) : RawState :=
  match getItem STORAGE_KEY ls with
  | None => h
  | Some stored =>
      if String.eqb stored "" then h
      else
        match JSON_parse stored with
        | None => h
        | Some parsed =>
            match destructure parsed with
            | None => h
            | Some (nodes, edges, nodeCounters) =>
                {| raw_nodes := nodes;
                   raw_edges := edges;
                   raw_nodeCounters := nodeCounters |}
            end
        end
  end.

End Loading.

(** A snapshot with [null] for counters, and a stored item that holds
    it. *)
Definition nullCounters : Snapshot :=
  {| snap_nodes := []; snap_edges := []; snap_nodeCounters := JNull |}.



(** [nodes.filter] of the last pass of [getValidationIssues]: the nodes
    without an incoming edge that are no Thank You page. *)
Definition entryPoints (ns : list FunnelNode) (es : list FunnelEdge)
  : list FunnelNode :=
  filter (fun node => negb (hasIncoming es node)
                      && negb (isType thankyou node)) ns.

(** The issue of that pass. *)
Definition entryPointIssue (count : nat) : ValidationIssue :=
  {| issue_type := warning;
     issue_message :=
       "Funnel has " ++ Number_toString (Z.of_nat count)
       ++ " entry points (usually should be 1)";
     issue_nodeId := None |}.

(** *** The validation panel ([components/ValidationPanel.tsx]) *)

Definition isError (i : ValidationIssue) : bool :=
  match issue_type i with
  | error => true
  | warning => false
  end.

Definition isWarning (i : ValidationIssue) : bool :=
  match issue_type i with
  | error => false
  | warning => true
  end.

(** [`${n} error${n !== 1 ? 's' : ''}`] and its like. *)
Definition countText (n : nat) (noun : string) : string :=
  Number_toString (Z.of_nat n) ++ " " ++ noun
  ++ (if Nat.eqb n 1 then "" else "s").

(** What the panel renders. *)
Inductive PanelView :=
| PanelEmpty
| PanelGood
| PanelIssues (errorsText warningsText : option string)
              (shown : list string) (moreText : option string).

(** The body of the component, from [nodes.length] and the issues it was
    given. *)
Definition panelView (nodesLength : nat) (issues : list ValidationIssue)
  : PanelView :=
  if Nat.eqb nodesLength 0 then PanelEmpty
  else if Nat.eqb (length issues) 0 then PanelGood
  else
    let errors := filter isError issues in
    let warnings := filter isWarning issues in
    PanelIssues
      (if Nat.ltb 0 (length errors)
       then Some (countText (length errors) "error") else None)
      (if Nat.ltb 0 (length warnings)
       then Some (countText (length warnings) "warning") else None)
      (map issue_message (firstn 5 issues))
      (if Nat.ltb 5 (length issues)
       then Some ("+" ++ Number_toString (Z.of_nat (length issues - 5))
                  ++ " more issues")%string
       else None).

(** *** Notions used to state the properties *)

(** How many [addNode] calls of category [t] are in [acts]. *)
Fixpoint countAdds (t : NodeType) (acts : list Action) : nat :=
  match acts with
  | [] => 0
  | AddNode type _ _ :: rest =>
      (if NodeType_eqb type t then 1 else 0) + countAdds t rest
  | _ :: rest => countAdds t rest
  end.

(** [n] is [n0] with, possibly, another label. *)
Definition sameButLabel (n0 n : FunnelNode) : Prop :=
  node_id n = node_id n0
  /\ node_type n = node_type n0
  /\ node_position n = node_position n0
  /\ data_type (node_data n) = data_type (node_data n0)
  /\ data_buttonLabel (node_data n) = data_buttonLabel (node_data n0).

(** No node of [st] has an empty label. *)
Definition labelsNonEmpty (st : FunnelState) : bool :=
  forallb (fun n => negb (String.eqb (data_label (node_data n)) ""))
          (nodes st).

(** The nodes of category [t]. *)
Definition nodesOfType (t : NodeType) (st : FunnelState) : list FunnelNode :=
  filter (isType t) (nodes st).

(** No edge of [es] has a falsy end, and no two edges of [es] are the same
    connection. *)
Definition connectionsOnce (es : list FunnelEdge) : Prop :=
  Forall (fun e => falsy (edge_source e) = false
                   /\ falsy (edge_target e) = false) es
  /\ ForallOrdPairs (fun e1 e2 => sameConnection e1 e2 = false) es.

(** Every id is made of the category of its node and a clock reading. *)
Definition idsByCategory (st : FunnelState) : Prop :=
  forall n, In n (nodes st) ->
    exists now, node_id n = stampId (data_type (node_data n), now).

(** No edge leaves a Thank You page. *)
Definition thankYouSinks (st : FunnelState) : Prop :=
  forall e n, In e (edges st) -> In n (nodes st) ->
    edge_source e = Some (node_id n) ->
    data_type (node_data n) <> thankyou.

(** A Thank You page and a Sales Page, a connection drawn from the Thank
    You page and one drawn to it. *)
Definition sampleDrawing : list Action :=
  [ AddNode thankyou {| pos_x := 0; pos_y := 0 |} 1000;
    AddNode sales {| pos_x := 0; pos_y := 200 |} 1001;
    Connect (link "thankyou-1000" "sales-1001");
    Connect (link "sales-1001" "thankyou-1000") ].

(** A node as [addNode] makes it: an id made of its category and a clock
    reading, the React Flow type ['funnelNode'] and the button text of its
    category. *)
Definition wellMade (n : FunnelNode) : Prop :=
  (exists now, node_id n = stampId (data_type (node_data n), now))
  /\ node_type n = "funnelNode"
  /\ data_buttonLabel (node_data n)
     = cfg_buttonLabel (NODE_CONFIGS (data_type (node_data n))).

(** The scenario's canvas with its Sales Page renamed. *)
Definition sampleRelabel : list Action :=
  [ AddNode sales {| pos_x := 0; pos_y := 0 |} 1000;
    AddNode thankyou {| pos_x := 0; pos_y := 200 |} 1001;
    UpdateNodeLabel "sales-1000" "Landing" ].

(** The renamed Sales Page. *)
Definition landing : FunnelNode :=
  withLabel "Landing"
    (newNode sales {| pos_x := 0; pos_y := 0 |} 1000 initialState).

(* ================================================================= *)
(** * Properties *)

(** ** Text of numbers and of node types *)

Lemma to_int_not_nil (z : Z) :
  Z.to_int z <> Decimal.Pos Decimal.Nil
  /\ Z.to_int z <> Decimal.Neg Decimal.Nil.
Proof.
  destruct z as [|p|p]; simpl; split; try discriminate;
    intros [= H]; exact (Unsigned.to_uint_nonnil p H).
Qed.

Lemma Number_toString_inj (a b : Z) :
  Number_toString a = Number_toString b -> a = b.
Proof.
  unfold Number_toString. intros H.
  apply DecimalZ.to_int_inj.
  destruct (to_int_not_nil a) as [Ha1 Ha2].
  destruct (to_int_not_nil b) as [Hb1 Hb2].
  pose proof (NilZero.isi _ Ha1 Ha2) as Ia.
  pose proof (NilZero.isi _ Hb1 Hb2) as Ib.
  rewrite H in Ia. congruence.
Qed.

Lemma NodeType_eqb_eq (a b : NodeType) : NodeType_eqb a b = true <-> a = b.
Proof. destruct a, b; simpl; split; intros H; congruence. Qed.

Lemma NodeType_eqb_refl (a : NodeType) : NodeType_eqb a a = true.
Proof. now destruct a. Qed.

Lemma nullable_is_true (a : nullable) (b : string) :
  nullable_is a b = true <-> a = Some b.
Proof.
  destruct a as [x|]; simpl.
  - rewrite String.eqb_eq. split; congruence.
  - split; discriminate.
Qed.

(** ** Resolving the source of a connection *)

Lemma findSource_nodeWithId (c : Connection) (a : string) (st : FunnelState) :
  conn_source c = Some a -> findSource c (nodes st) = nodeWithId a st.
Proof. unfold findSource, nodeWithId. intros ->. reflexivity. Qed.

Lemma nodeWithId_In (a : string) (st : FunnelState) (n : FunnelNode) :
  nodeWithId a st = Some n -> In n (nodes st) /\ node_id n = a.
Proof.
  unfold nodeWithId. intros H. apply find_some in H.
  destruct H as [Hin Heq]. split; [assumption|].
  now apply String.eqb_eq.
Qed.

Lemma onConnect_proceeds (c : Connection) (st : FunnelState) :
  sourceIs thankyou (findSource c (nodes st)) = false ->
  onConnect c st =
    {| nodes := nodes st;
       edges := addEdge (newEdge c) (edges st);
       nodeCounters := nodeCounters st |}.
Proof. unfold onConnect. intros ->. reflexivity. Qed.

Lemma onConnect_nodes (c : Connection) (st : FunnelState) :
  nodes (onConnect c st) = nodes st.
Proof. unfold onConnect. now destruct (sourceIs _ _). Qed.

(** C1.  When the node that [connection.source] resolves to is a Thank You
    page, [onConnect] returns the store as it was: no edge is added and
    nodes, edges and counters are untouched, whatever the target and the
    handles are. *)
Theorem onConnect_thankyou_rejected
    (st : FunnelState) (connection : Connection) (a : string) (n : FunnelNode) :
  conn_source connection = Some a ->
  nodeWithId a st = Some n ->
  data_type (node_data n) = thankyou ->
  onConnect connection st = st.
Proof.
  intros Hsrc Hfind Hty. unfold onConnect.
  rewrite (findSource_nodeWithId _ _ _ Hsrc), Hfind. simpl.
  rewrite Hty. reflexivity.
Qed.

Lemma onConnect_thankyou_rejected_witness :
  onConnect (link "thankyou-1001" "sales-1000") scenario = scenario.
Proof.
  apply (onConnect_thankyou_rejected scenario
           (link "thankyou-1001" "sales-1000") "thankyou-1001"
           (newNode thankyou {| pos_x := 0; pos_y := 200 |} 1001
              (addNode sales {| pos_x := 0; pos_y := 0 |} 1000 initialState)));
    reflexivity.
Defined.

(** ** reactflow's [addEdge] *)

Lemma nullable_eqb_refl (a : nullable) : nullable_eqb a a = true.
Proof. destruct a; simpl; [apply String.eqb_refl | reflexivity]. Qed.




(** An edge of the new list is an edge of the old one or the edge handed
    over. *)
Lemma addEdge_In (x : FunnelEdge) (es : list FunnelEdge) (e : FunnelEdge) :
  In e (addEdge x es) -> In e es \/ e = x.
Proof.
  unfold addEdge.
  destruct (falsy (edge_source x) || falsy (edge_target x)); [now left|].
  destruct (connectionExists x es); [now left|].
  intros H. apply in_app_or in H. destruct H as [H | [<- | []]]; auto.
Qed.

Lemma addEdge_appends (x : FunnelEdge) (es : list FunnelEdge) :
  falsy (edge_source x) = false -> falsy (edge_target x) = false ->
  connectionExists x es = false ->
  addEdge x es = es ++ [x].
Proof. unfold addEdge. intros -> -> ->. reflexivity. Qed.

Lemma addEdge_kept (x : FunnelEdge) (es : list FunnelEdge) :
  connectionExists x es = true -> addEdge x es = es.
Proof.
  unfold addEdge. intros ->.
  now destruct (falsy (edge_source x) || falsy (edge_target x)).
Qed.








(** C5.  After [deleteNode nodeId] no node of the store has id [nodeId], and
    no edge of the store has [nodeId] as its source or as its target. *)
Theorem deleteNode_cascade (st : FunnelState) (nodeId : string) :
  (forall n, In n (nodes (deleteNode nodeId st)) -> node_id n <> nodeId)
  /\ (forall e, In e (edges (deleteNode nodeId st)) ->
        edge_source e <> Some nodeId /\ edge_target e <> Some nodeId).
Proof.
  split.
  - intros n Hin. simpl in Hin. apply filter_In in Hin.
    destruct Hin as [_ Hne]. apply negb_true_iff in Hne.
    now apply String.eqb_neq.
  - intros e Hin. simpl in Hin. apply filter_In in Hin.
    destruct Hin as [_ Hne]. apply andb_true_iff in Hne.
    destruct Hne as [Hs Ht].
    apply negb_true_iff in Hs. apply negb_true_iff in Ht.
    split; intros Heq;
      [ apply nullable_is_true in Heq; rewrite Heq in Hs
      | apply nullable_is_true in Heq; rewrite Heq in Ht ]; discriminate.
Qed.

(** ** The soft rule and the validator *)

Lemma outgoing_app (es1 es2 : list FunnelEdge) (n : FunnelNode) :
  outgoing (es1 ++ es2) n = outgoing es1 n ++ outgoing es2 n.
Proof. unfold outgoing. apply filter_app. Qed.

Lemma outgoing_nonempty (es : list FunnelEdge) (n : FunnelNode)
    (e : FunnelEdge) :
  In e es -> edge_source e = Some (node_id n) -> 1 <= length (outgoing es n).
Proof.
  intros Hin Hsrc.
  assert (Hout : In e (outgoing es n)).
  { unfold outgoing. apply filter_In. split; [assumption|].
    now apply nullable_is_true. }
  destruct (outgoing es n); [contradiction|]. simpl. lia.
Qed.

Lemma salesIssues_fanout (ns : list FunnelNode) (es : list FunnelEdge)
    (n : FunnelNode) :
  In n ns -> data_type (node_data n) = sales -> 1 < length (outgoing es n) ->
  In (nodeIssue warning n " has multiple outgoing connections (should have 1)")
     (salesIssues ns es).
Proof.
  intros Hin Hty Hlen. unfold salesIssues.
  apply in_flat_map. exists n. split.
  - apply filter_In. split; [assumption|].
    unfold isType. rewrite Hty. reflexivity.
  - apply in_or_app. left.
    apply Nat.ltb_lt in Hlen. rewrite Hlen. now left.
Qed.

(** C8, as stated, fails: with the Sales Page already linked to the Thank
    You page, the same [connect] once more is a connection [addEdge] finds
    there; no edge is appended and the validator, which still sees one
    outgoing edge, reports nothing. *)
Lemma onConnect_sales_repeat_adds_nothing :
  ~ (forall st connection a n e,
       conn_source connection = Some a ->
       nodeWithId a st = Some n ->
       data_type (node_data n) = sales ->
       In e (edges st) -> edge_source e = Some a ->
       edges (onConnect connection st) = edges st ++ [newEdge connection]
       /\ In {| issue_type := warning;
                issue_message :=
                  quoted (data_label (node_data n))
                  ++ " has multiple outgoing connections (should have 1)";
                issue_nodeId := Some a |}
             (getValidationIssues (onConnect connection st))).
Proof.
  intros H.
  destruct (H (onConnect (link "sales-1000" "thankyou-1001") scenario)
              (link "sales-1000" "thankyou-1001") "sales-1000"
              (newNode sales {| pos_x := 0; pos_y := 0 |} 1000 initialState)
              (newEdge (link "sales-1000" "thankyou-1001"))
              eq_refl eq_refl eq_refl (or_introl eq_refl) eq_refl)
    as [_ Hin].
  vm_compute in Hin. exact Hin.
Qed.

(** C8, amended.  When the source of a [connect] resolves to a Sales Page
    that already has an outgoing edge, the connection is not blocked:
    [onConnect] logs its warning and hands the edge to [addEdge].  When the
    source id and the target are not empty and the connection is not there
    yet (no edge with the same source, target and handles), the new edge is
    appended, and the validator then reports, for that node id, the warning
    about multiple outgoing connections.  When the connection is already
    there, the store stays as it was. *)
Theorem onConnect_sales_soft_rule
    (st : FunnelState) (connection : Connection) (a : string)
    (n : FunnelNode) (e : FunnelEdge) :
  conn_source connection = Some a ->
  nodeWithId a st = Some n ->
  data_type (node_data n) = sales ->
  In e (edges st) -> edge_source e = Some a ->
  let st' := onConnect connection st in
  onConnect_warnings connection st
  = ["Sales Page should have only one outgoing edge"]
  /\ edges st' = addEdge (newEdge connection) (edges st)
  /\ (a <> "" -> falsy (conn_target connection) = false ->
      connectionExists (newEdge connection) (edges st) = false ->
      edges st' = edges st ++ [newEdge connection]
      /\ In {| issue_type := warning;
               issue_message :=
                 quoted (data_label (node_data n))
                 ++ " has multiple outgoing connections (should have 1)";
               issue_nodeId := Some a |}
            (getValidationIssues st'))
  /\ (connectionExists (newEdge connection) (edges st) = true -> st' = st).
Proof.
  intros Hsrc Hfind Hty Hin Hesrc st'.
  destruct (nodeWithId_In _ _ _ Hfind) as [Hn Hid].
  assert (Hacc : sourceIs thankyou (findSource connection (nodes st)) = false).
  { rewrite (findSource_nodeWithId _ _ _ Hsrc), Hfind. simpl.
    rewrite Hty. reflexivity. }
  assert (Hst' : st' = {| nodes := nodes st;
                          edges := addEdge (newEdge connection) (edges st);
                          nodeCounters := nodeCounters st |})
    by (subst st'; now apply onConnect_proceeds).
  split; [|split; [|split]].
  - unfold onConnect_warnings. rewrite Hacc.
    rewrite (findSource_nodeWithId _ _ _ Hsrc), Hfind. cbn [sourceIs].
    rewrite Hty. cbn [NodeType_eqb].
    assert (Hone : 1 <= length (filter (fun e0 =>
                     nullable_eqb (edge_source e0) (conn_source connection))
                     (edges st))).
    { assert (Hin' : In e (filter (fun e0 =>
                       nullable_eqb (edge_source e0) (conn_source connection))
                       (edges st))).
      { apply filter_In. split; [assumption|].
        rewrite Hesrc, Hsrc. apply nullable_eqb_refl. }
      destruct (filter _ (edges st)); [contradiction | simpl; lia]. }
    apply Nat.leb_le in Hone. now rewrite Hone.
  - now rewrite Hst'.
  - intros Hne Htgt Hnew.
    assert (Hedges : edges st' = edges st ++ [newEdge connection]).
    { rewrite Hst'. cbn [edges]. apply addEdge_appends; [| |exact Hnew];
        cbn [newEdge edge_source edge_target]; [|exact Htgt].
      rewrite Hsrc. cbn [falsy]. now apply String.eqb_neq. }
    split; [exact Hedges|].
    unfold getValidationIssues. rewrite Hedges.
    assert (Hnodes : nodes st' = nodes st) by now rewrite Hst'.
    rewrite Hnodes.
    apply in_or_app. right. apply in_or_app. left.
    rewrite <- Hid.
    apply (salesIssues_fanout _ _ n); try assumption.
    rewrite outgoing_app, length_app.
    assert (1 <= length (outgoing (edges st) n))
      by (apply (outgoing_nonempty _ _ e); [assumption | now rewrite Hid]).
    assert (length (outgoing [newEdge connection] n) = 1).
    { unfold outgoing. simpl. rewrite Hsrc, Hid. simpl.
      rewrite String.eqb_refl. reflexivity. }
    lia.
  - intros Hthere. rewrite Hst', (addEdge_kept _ _ Hthere). now destruct st.
Qed.

Lemma onConnect_sales_soft_rule_witness :
  edges (onConnect (linkOn "bottom" "sales-1000" "thankyou-1001")
           (onConnect (link "sales-1000" "thankyou-1001") scenario))
  = edges (onConnect (link "sales-1000" "thankyou-1001") scenario)
    ++ [newEdge (linkOn "bottom" "sales-1000" "thankyou-1001")]
  /\ In {| issue_type := warning;
           issue_message :=
             quoted "Sales Page"
             ++ " has multiple outgoing connections (should have 1)";
           issue_nodeId := Some "sales-1000" |}
        (getValidationIssues
           (onConnect (linkOn "bottom" "sales-1000" "thankyou-1001")
              (onConnect (link "sales-1000" "thankyou-1001") scenario))).
Proof.
  destruct (onConnect_sales_soft_rule
              (onConnect (link "sales-1000" "thankyou-1001") scenario)
              (linkOn "bottom" "sales-1000" "thankyou-1001") "sales-1000"
              (newNode sales {| pos_x := 0; pos_y := 0 |} 1000 initialState)
              (newEdge (link "sales-1000" "thankyou-1001"))
              eq_refl eq_refl eq_refl (or_introl eq_refl) eq_refl)
    as [_ [_ [Hnew _]]].
  apply Hnew; [discriminate | reflexivity | reflexivity].
Defined.

(** The spec's scenario: with the Sales Page linked to the Thank You page
    the validator has nothing to report. *)
Example validator_accepts_linear_funnel :
  getValidationIssues (onConnect (link "sales-1000" "thankyou-1001") scenario)
  = [].
Proof. reflexivity. Qed.

(** Two nodes and no edge: both are disconnected, the Sales Page lacks its
    outgoing connection, and one entry point is not too many. *)
Example validator_reports_loose_nodes :
  map issue_nodeId (getValidationIssues scenario)
  = [Some "sales-1000"; Some "thankyou-1001"; Some "sales-1000"].
Proof. reflexivity. Qed.

(** Deleting a node twice is deleting it once. *)
Lemma deleteNode_idempotent (st : FunnelState) (nodeId : string) :
  deleteNode nodeId (deleteNode nodeId st) = deleteNode nodeId st.
Proof.
  unfold deleteNode. cbn [nodes edges nodeCounters]. f_equal.
  - induction (nodes st) as [|n ns IH]; [reflexivity|]. simpl.
    destruct (String.eqb (node_id n) nodeId) eqn:E; simpl;
      [exact IH | rewrite E; simpl; now rewrite IH].
  - induction (edges st) as [|e es IH]; [reflexivity|]. simpl.
    destruct (negb (nullable_is (edge_source e) nodeId)
              && negb (nullable_is (edge_target e) nodeId)) eqn:E; simpl;
      [rewrite E; now rewrite IH | exact IH].
Qed.

(** ** Edges and the nodes they name *)

Lemma hasNode_true (a : nullable) (st : FunnelState) :
  hasNode a st = true <-> exists n, In n (nodes st) /\ a = Some (node_id n).
Proof.
  unfold hasNode. rewrite existsb_exists.
  split; intros [n [Hin H]]; exists n; split; try assumption;
    now apply nullable_is_true.
Qed.

Lemma edgesClosed_true (st : FunnelState) :
  edgesClosed st = true <->
  forall e, In e (edges st) ->
    hasNode (edge_source e) st = true /\ hasNode (edge_target e) st = true.
Proof.
  unfold edgesClosed. rewrite forallb_forall.
  split; intros H e He; specialize (H e He).
  - now apply andb_true_iff in H.
  - now apply andb_true_iff.
Qed.

(** A node id survives whenever the new node list still carries it. *)
Lemma hasNode_transfer (a : nullable) (st st' : FunnelState) :
  (forall n, In n (nodes st) -> a = Some (node_id n) ->
     exists n', In n' (nodes st') /\ node_id n' = node_id n) ->
  hasNode a st = true -> hasNode a st' = true.
Proof.
  intros Hkeep H. apply hasNode_true in H. destruct H as [n [Hin Ha]].
  destruct (Hkeep n Hin Ha) as [n' [Hin' Hid]].
  apply hasNode_true. exists n'. split; [assumption|]. now rewrite Hid.
Qed.

Lemma hasNode_deleteNode (a : nullable) (x : string) (st : FunnelState) :
  nullable_is a x = false ->
  hasNode a st = true -> hasNode a (deleteNode x st) = true.
Proof.
  intros Hne. apply hasNode_transfer. intros n Hin Ha.
  exists n. split; [|reflexivity].
  simpl. apply filter_In. split; [assumption|].
  apply negb_true_iff. rewrite Ha in Hne. exact Hne.
Qed.

Lemma hasNode_updateNodeLabel (a : nullable) (x l : string) (st : FunnelState) :
  hasNode a st = true -> hasNode a (updateNodeLabel x l st) = true.
Proof.
  apply hasNode_transfer. intros n Hin _.
  exists (if String.eqb (node_id n) x then withLabel l n else n). split.
  - simpl. apply (in_map (fun node => if String.eqb (node_id node) x
                                      then withLabel l node else node)).
    assumption.
  - now destruct (String.eqb (node_id n) x).
Qed.

Lemma hasNode_addNode (a : nullable) t p now (st : FunnelState) :
  hasNode a st = true -> hasNode a (addNode t p now st) = true.
Proof.
  apply hasNode_transfer. intros n Hin _.
  exists n. split; [|reflexivity]. simpl. apply in_or_app. now left.
Qed.

Lemma perform_keeps_edgesClosed (a : Action) (st : FunnelState) :
  edgesClosed st = true -> connectsPresent a st = true ->
  edgesClosed (perform a st) = true.
Proof.
  intros Hclosed Hok.
  pose proof (proj1 (edgesClosed_true st) Hclosed) as H.
  apply edgesClosed_true.
  destruct a as [t p now | x | x | c | x l]; simpl perform.
  - intros e He. destruct (H e He) as [Hs Ht].
    split; now apply hasNode_addNode.
  - intros e He. simpl in He. apply filter_In in He.
    destruct He as [He Hne]. apply andb_true_iff in Hne.
    destruct Hne as [Hs Ht].
    apply negb_true_iff in Hs. apply negb_true_iff in Ht.
    destruct (H e He) as [Hs' Ht'].
    split; now apply hasNode_deleteNode.
  - intros e He. simpl in He. apply filter_In in He.
    destruct He as [He _]. exact (H e He).
  - unfold onConnect.
    destruct (sourceIs thankyou (findSource c (nodes st))); [exact H|].
    intros e He. cbn [edges] in He.
    apply addEdge_In in He. destruct He as [He | ->].
    + exact (H e He).
    + simpl in Hok. apply andb_true_iff in Hok. exact Hok.
  - intros e He. destruct (H e He) as [Hs Ht].
    split; now apply hasNode_updateNodeLabel.
Qed.

(** C9, as stated, fails: [onConnect] never looks the target up and accepts
    a source it cannot resolve, so a [connect] between two ids that no node
    carries leaves a dangling edge on the empty canvas. *)
Lemma edgesClosed_fails_for_unknown_ids :
  ~ (forall acts, edgesClosed (run acts initialState) = true).
Proof.
  intros H. specialize (H [Connect (link "ghost-1" "ghost-2")]).
  vm_compute in H. discriminate H.
Qed.

(** C9, amended.  In every state reached from the empty canvas by
    [addNode], [deleteNode], [deleteEdge], [onConnect] and
    [updateNodeLabel], where each [onConnect] joins two nodes present at
    that moment (as connections drawn on the canvas do), every edge has a
    present node as its source and a present node as its target. *)
Theorem edgesClosed_on_canvas (acts : list Action) :
  drawnOnCanvas acts initialState = true ->
  edgesClosed (run acts initialState) = true.
Proof.
  assert (Hinit : edgesClosed initialState = true) by reflexivity.
  revert Hinit. generalize initialState as st.
  induction acts as [|a rest IH]; intros st Hclosed Hdrawn.
  - exact Hclosed.
  - cbn [drawnOnCanvas] in Hdrawn. apply andb_true_iff in Hdrawn.
    destruct Hdrawn as [Ha Hrest]. cbn [run].
    apply IH; [|exact Hrest].
    now apply perform_keeps_edgesClosed.
Qed.

Lemma edgesClosed_on_canvas_witness :
  edgesClosed
    (run [ AddNode sales {| pos_x := 0; pos_y := 0 |} 1000;
           AddNode thankyou {| pos_x := 0; pos_y := 200 |} 1001;
           Connect (link "sales-1000" "thankyou-1001");
           UpdateNodeLabel "sales-1000" "Landing";
           DeleteNode "thankyou-1001" ] initialState) = true.
Proof. apply edgesClosed_on_canvas. reflexivity. Defined.

(** ** Ids and labels of created nodes *)

Lemma stampId_inj (s1 s2 : NodeType * Z) : stampId s1 = stampId s2 -> s1 = s2.
Proof.
  destruct s1 as [t1 n1], s2 as [t2 n2]. unfold stampId.
  cbn [fst snd].
  destruct t1, t2; cbn [NodeType_text append]; intros H;
    try discriminate H;
    injection H as H; apply Number_toString_inj in H; now subst.
Qed.

Lemma newLabel_inj (t1 t2 : NodeType) (o1 o2 : nat) :
  repeatable t1 = true -> repeatable t2 = true ->
  newLabel t1 o1 = newLabel t2 o2 -> t1 = t2 /\ o1 = o2.
Proof.
  destruct t1, t2; try discriminate; intros _ _;
    unfold newLabel; cbn [NODE_CONFIGS cfg_label append]; intros H;
    try discriminate H;
    injection H as H; apply Number_toString_inj in H;
    apply Nat2Z.inj in H; now subst.
Qed.

Lemma creations_ids (acts : list Action) :
  forall st,
    map (fun c => node_id (made c)) (creations acts st)
    = map stampId (stamps acts).
Proof.
  induction acts as [|a rest IH]; intros st; [reflexivity|].
  destruct a; cbn [creations stamps app map]; try apply IH.
  rewrite IH. reflexivity.
Qed.

Lemma perform_counter_mono (a : Action) (st : FunnelState) (t : NodeType) :
  nodeCounters st t <= nodeCounters (perform a st) t.
Proof.
  destruct a as [t' p now | x | x | c | x l]; simpl; try lia.
  - destruct (NodeType_eqb t t') eqn:E; [|lia].
    apply NodeType_eqb_eq in E. subst. lia.
  - unfold onConnect. destruct (sourceIs _ _); simpl; lia.
Qed.

(** Every node created along [acts] got an ordinal above the counter the
    run started from. *)
Lemma creations_above (acts : list Action) :
  forall st c, In c (creations acts st) ->
               nodeCounters st (creationType c) < ordinal c.
Proof.
  induction acts as [|a rest IH]; intros st c Hin; [contradiction|].
  cbn [creations] in Hin. apply in_app_or in Hin.
  destruct Hin as [Hin | Hin].
  - destruct a; try contradiction.
    destruct Hin as [<- | []]. unfold creationType. simpl. lia.
  - specialize (IH _ _ Hin).
    pose proof (perform_counter_mono a st (creationType c)). lia.
Qed.

Lemma creations_labels (acts : list Action) :
  forall st, Forall (fun c => creationLabel c
                              = newLabel (creationType c) (ordinal c))
                    (creations acts st).
Proof.
  induction acts as [|a rest IH]; intros st; [constructor|].
  cbn [creations]. apply Forall_app. split; [|apply IH].
  destruct a; constructor; [reflexivity | constructor].
Qed.

Lemma creations_ordinals (acts : list Action) :
  forall st, ForallOrdPairs
               (fun c1 c2 => creationType c1 = creationType c2 ->
                             ordinal c1 < ordinal c2)
               (creations acts st).
Proof.
  induction acts as [|a rest IH]; intros st; [constructor|].
  destruct a as [t p now | x | x | c | x l]; cbn [creations app];
    try apply IH.
  constructor; [|apply IH].
  apply Forall_forall. intros c Hin Hty.
  apply creations_above in Hin. rewrite <- Hty in Hin.
  unfold creationType in Hin. simpl in Hin.
  rewrite NodeType_eqb_refl in Hin. simpl. lia.
Qed.

Lemma ForallOrdPairs_both {A} (P Q R : A -> A -> Prop) (l : list A) :
  (forall a b, P a b -> Q a a -> Q b b -> R a b) ->
  ForallOrdPairs P l -> Forall (fun a => Q a a) l -> ForallOrdPairs R l.
Proof.
  intros HR HP. induction HP as [|a l Ha HP IH]; intros HQ; [constructor|].
  inversion HQ as [|? ? Qa Ql]; subst.
  constructor; [|now apply IH].
  rewrite Forall_forall in *. intros b Hb. apply HR; auto.
Qed.

Lemma NoDup_map_injective {A B} (f : A -> B) (l : list A) :
  (forall x y, f x = f y -> x = y) -> NoDup l -> NoDup (map f l).
Proof.
  intros Hinj Hl. induction Hl as [|x l Hx Hl IH]; simpl; constructor.
  - intros Hin. apply in_map_iff in Hin. destruct Hin as [y [Hy Hin]].
    apply Hinj in Hy. now subst.
  - exact IH.
Qed.

(** C3, as stated, fails: the id is the category followed by the clock
    reading, so two nodes of one category created at the same reading get
    the same id. *)
Lemma addNode_ids_clash_within_a_millisecond :
  ~ (forall acts,
       NoDup (map (fun c => node_id (made c)) (creations acts initialState))).
Proof.
  intros H.
  specialize (H [ AddNode upsell {| pos_x := 0; pos_y := 0 |} 1000;
                  AddNode upsell {| pos_x := 40; pos_y := 0 |} 1000 ]).
  inversion H as [|id ids Hnotin _]; subst.
  apply Hnotin. left. reflexivity.
Qed.

(** C3, amended.  Along any sequence of [addNode] calls interleaved with
    [deleteNode] calls (and with [deleteEdge], [onConnect] and
    [updateNodeLabel] calls as well), from any state: the ids of the
    created nodes are pairwise distinct provided no two [addNode] calls of
    the same category read the same clock value; every created node is
    labelled from the counter value of its creation; the ordinals of two
    nodes of the same category increase strictly in creation order; and
    two created Upsell or Downsell nodes never share a label.  The
    sequence holds no [clearCanvas], [importJSON] or [loadFromStorage],
    which replace the counters. *)
Theorem addNode_ids_and_labels (acts : list Action) (st : FunnelState) :
  let cs := creations acts st in
  (NoDup (stamps acts) -> NoDup (map (fun c => node_id (made c)) cs))
  /\ Forall (fun c => creationLabel c
                       = newLabel (creationType c) (ordinal c)) cs
  /\ ForallOrdPairs (fun c1 c2 => creationType c1 = creationType c2 ->
                                  ordinal c1 < ordinal c2) cs
  /\ ForallOrdPairs (fun c1 c2 => repeatable (creationType c1) = true ->
                                  repeatable (creationType c2) = true ->
                                  creationLabel c1 <> creationLabel c2) cs.
Proof.
  intros cs. subst cs. repeat split.
  - intros Hnodup. rewrite creations_ids.
    apply NoDup_map_injective; [|exact Hnodup].
    intros s1 s2. apply stampId_inj.
  - apply creations_labels.
  - apply creations_ordinals.
  - apply (ForallOrdPairs_both
             (fun c1 c2 => creationType c1 = creationType c2 ->
                           ordinal c1 < ordinal c2)
             (fun c1 c2 => creationLabel c1
                           = newLabel (creationType c2) (ordinal c2))).
    + intros c1 c2 Hord L1 L2 R1 R2 Heq.
      rewrite L1, L2 in Heq.
      destruct (newLabel_inj _ _ _ _ R1 R2 Heq) as [Hty Ho].
      specialize (Hord Hty). lia.
    + apply creations_ordinals.
    + apply creations_labels.
Qed.

Lemma addNode_ids_and_labels_witness :
  NoDup (map (fun c => node_id (made c)) (creations sampleActions initialState))
  /\ map creationLabel (creations sampleActions initialState)
     = ["Upsell 1"; "Upsell 2"; "Downsell 1"].
Proof.
  split; [|reflexivity].
  apply (proj1 (addNode_ids_and_labels sampleActions initialState)).
  repeat constructor; simpl; intuition discriminate.
Defined.

(** ** Relabelling *)

Lemma updateNodeLabel_absent (st : FunnelState) (nodeId label : string) :
  hasNode (Some nodeId) st = false -> updateNodeLabel nodeId label st = st.
Proof.
  intros Habs. destruct st as [ns es cs]. unfold updateNodeLabel. simpl.
  f_equal. unfold hasNode in Habs. simpl in Habs.
  induction ns as [|n ns IH]; [reflexivity|].
  simpl in Habs. apply orb_false_iff in Habs. destruct Habs as [Hn Hns].
  simpl. rewrite String.eqb_sym, Hn. f_equal. now apply IH.
Qed.

(** C4, as stated, fails: [updateNodeLabel] stores whatever text it is
    handed, the empty one included; it trims nothing and tests nothing. *)
Lemma updateNodeLabel_stores_empty_label :
  ~ (forall st nodeId label,
       trimAscii label = "" -> updateNodeLabel nodeId label st = st).
Proof.
  intros H. specialize (H scenario "sales-1000" "" eq_refl).
  apply (f_equal (fun st => map (fun n => data_label (node_data n)) (nodes st)))
    in H.
  vm_compute in H. discriminate H.
Qed.

(** C4, amended.  [updateNodeLabel nodeId label] gives the text [label], as
    it is (empty or blank text included), to every node whose id is
    [nodeId], and changes nothing else: ids and their order, the other
    nodes, the other fields of the relabelled nodes, the edges and the
    counters stay.  It returns the store unchanged when no node has that
    id.  The guard on blank text is in the node editor: [handleBlur] leaves
    the store unchanged when the edited text is empty after trimming, or
    equal to the current label, and otherwise calls [updateNodeLabel] with
    the trimmed text. *)
Theorem updateNodeLabel_relabels (st : FunnelState) (nodeId label : string) :
  let st' := updateNodeLabel nodeId label st in
  map node_id (nodes st') = map node_id (nodes st)
  /\ (forall n, In n (nodes st) -> node_id n = nodeId ->
        In (withLabel label n) (nodes st'))
  /\ (forall n, In n (nodes st) -> node_id n <> nodeId -> In n (nodes st'))
  /\ (forall n', In n' (nodes st') -> node_id n' = nodeId ->
        data_label (node_data n') = label)
  /\ edges st' = edges st
  /\ nodeCounters st' = nodeCounters st
  /\ (hasNode (Some nodeId) st = false -> st' = st)
  /\ (forall trim dataLabel editLabel,
        handleBlur trim nodeId dataLabel editLabel st =
          if String.eqb (trim editLabel) "" then st
          else if String.eqb editLabel dataLabel then st
          else updateNodeLabel nodeId (trim editLabel) st).
Proof.
  intros st'. subst st'. repeat split.
  - simpl. rewrite map_map. apply map_ext. intros n.
    now destruct (String.eqb (node_id n) nodeId).
  - intros n Hin Hid. simpl. apply in_map_iff. exists n.
    split; [|assumption]. apply String.eqb_eq in Hid. now rewrite Hid.
  - intros n Hin Hid. simpl. apply in_map_iff. exists n.
    split; [|assumption]. apply String.eqb_neq in Hid. now rewrite Hid.
  - intros n' Hin Hid. simpl in Hin. apply in_map_iff in Hin.
    destruct Hin as [n [Hn Hin]].
    destruct (String.eqb (node_id n) nodeId) eqn:E; subst n'.
    + reflexivity.
    + apply String.eqb_neq in E. contradiction.
  - apply updateNodeLabel_absent.
  - intros trim dataLabel editLabel. unfold handleBlur.
    destruct (String.eqb (trim editLabel) ""); [reflexivity|].
    now destruct (String.eqb editLabel dataLabel).
Qed.

Lemma updateNodeLabel_relabels_witness :
  updateNodeLabel "upsell-7" "Bonus" scenario = scenario
  /\ handleBlur trimAscii "sales-1000" "Sales Page" "   " scenario = scenario
  /\ map (fun n => data_label (node_data n))
         (nodes (handleBlur trimAscii "sales-1000" "Sales Page" " Landing "
                   scenario))
     = ["Landing"; "Thank You"].
Proof.
  split; [|split; reflexivity].
  apply (proj1 (proj2 (proj2 (proj2 (proj2 (proj2 (proj2
           (updateNodeLabel_relabels scenario "upsell-7" "Bonus")))))))).
  reflexivity.
Defined.

(** ** Import: rejection and defaults *)

(** C6.  Whatever [JSON.parse] the host provides: when the text does not
    parse, or parses to a value whose [nodes] or whose [edges] is not an
    array, [importJSON] returns [false] and the store is the one it was
    given, in memory (nodes, edges, counters) and in [localStorage]. *)
Theorem importJSON_rejects (host : JSONHost) (text : string) (s : Store) :
  (JSON_parse text = None
   \/ exists v, JSON_parse text = Some v
                /\ (asArray (field v "nodes") = None
                    \/ asArray (field v "edges") = None)) ->
  importJSON text s = (false, s).
Proof.
  intros [Hnone | [v [Hv Hbad]]]; unfold importJSON.
  - rewrite Hnone. reflexivity.
  - rewrite Hv.
    destruct (destructure v) as [[[ns es] cs]|] eqn:Hd; [|reflexivity].
    assert (ns = field v "nodes" /\ es = field v "edges") as [-> ->].
    { destruct v; simpl in Hd; inversion Hd; split; reflexivity. }
    destruct Hbad as [Hbad | Hbad]; rewrite Hbad.
    + reflexivity.
    + now destruct (asArray (field v "nodes")).
Qed.

Lemma importJSON_rejects_witness :
  importJSON (host := referenceJSON) "not json" emptyStore
  = (false, emptyStore)
  /\ importJSON (host := referenceJSON) "null" emptyStore
     = (false, emptyStore)
  /\ importJSON (host := referenceJSON) "[1, 2]" emptyStore
     = (false, emptyStore).
Proof.
  split; [|split]; apply importJSON_rejects.
  - left. reflexivity.
  - right. exists JNull. split; [reflexivity | left; reflexivity].
  - right. exists (JArray [JNumber 1; JNumber 2]).
    split; [reflexivity | left; reflexivity].
Defined.




(* ================================================================= *)
(** * The reference JSON implementation reads back what it writes *)

(** ** Text *)

Lemma append_assoc (a b c : string) : ((a ++ b) ++ c = a ++ (b ++ c))%string.
Proof. induction a as [|x a IH]; simpl; [reflexivity | now rewrite IH]. Qed.

Lemma append_empty_r (a : string) : (a ++ "")%string = a.
Proof. induction a as [|x a IH]; simpl; [reflexivity | now rewrite IH]. Qed.

Lemma length_append (a b : string) :
  String.length (a ++ b) = String.length a + String.length b.
Proof. induction a as [|x a IH]; simpl; [reflexivity | now rewrite IH]. Qed.

Lemma skipWs_append (w s : string) :
  allWs w = true -> skipWs (w ++ s) = skipWs s.
Proof.
  induction w as [|c w IH]; simpl; [reflexivity|].
  intros H. apply andb_true_iff in H. destruct H as [Hc Hw].
  rewrite Hc. now apply IH.
Qed.

Lemma allWs_append (a b : string) :
  allWs a = true -> allWs b = true -> allWs (a ++ b) = true.
Proof.
  induction a as [|c a IH]; simpl; [trivial|].
  intros H Hb. apply andb_true_iff in H. destruct H as [Hc Ha].
  rewrite Hc. now apply IH.
Qed.

Lemma allWs_spaces (n : nat) : allWs (spaces n) = true.
Proof. induction n as [|n IH]; [reflexivity | exact IH]. Qed.

Lemma allWs_lineBreak (gap indent : string) :
  allWs indent = true -> allWs (lineBreak gap indent) = true.
Proof.
  intros H. unfold lineBreak. destruct (String.eqb gap ""); [reflexivity|].
  exact H.
Qed.

Lemma allWs_colonGap (gap : string) : allWs (colonGap gap) = true.
Proof. unfold colonGap. now destruct (String.eqb gap ""). Qed.

Lemma isWs_not_numberChar (c : ascii) : isWs c = true -> numberChar c = false.
Proof.
  destruct c as [[] [] [] [] [] [] [] []]; try discriminate; reflexivity.
Qed.

Lemma skipWs_valueHead (s : string) : valueHead s = true -> skipWs s = s.
Proof.
  destruct s as [|c r]; [discriminate|]. simpl.
  intros H. apply andb_true_iff in H. destruct H as [H _].
  apply negb_true_iff in H. now rewrite H.
Qed.

(** White space and then a character that ends a number literal. *)
Lemma numberEnds_after_ws (w : string) (c : ascii) (t : string) :
  allWs w = true -> numberChar c = false ->
  numberEnds (w ++ String c t) = true.
Proof.
  destruct w as [|x w]; simpl; intros Hw Hc.
  - now rewrite Hc.
  - apply andb_true_iff in Hw. destruct Hw as [Hx _].
    now rewrite (isWs_not_numberChar _ Hx).
Qed.

(** ** Number literals *)

Lemma takeDigits_text (u : Decimal.uint) (rest : string) :
  numberEnds rest = true ->
  takeDigits (NilEmpty.string_of_uint u ++ rest) = (u, rest).
Proof.
  intros Hend. induction u; simpl; try (rewrite IHu; reflexivity).
  destruct rest as [|c r]; [reflexivity|]. simpl in Hend |- *.
  unfold numberChar in Hend. destruct (digitOf c); [discriminate|reflexivity].
Qed.

Lemma parseFraction_none (rest : string) :
  numberEnds rest = true -> parseFraction rest = Some (Decimal.Nil, rest).
Proof.
  destruct rest as [|c r]; [reflexivity|]. simpl. unfold numberChar.
  destruct (digitOf c); [discriminate|].
  destruct (Ascii.eqb c "."); [discriminate|reflexivity].
Qed.

Lemma parseExponent_none (rest : string) :
  numberEnds rest = true -> parseExponent rest = Some (0%Z, rest).
Proof.
  destruct rest as [|c r]; [reflexivity|]. simpl. unfold numberChar.
  destruct (digitOf c); [discriminate|].
  destruct (Ascii.eqb c "."); [discriminate|].
  destruct (Ascii.eqb c "e"); [discriminate|].
  destruct (Ascii.eqb c "E"); [discriminate|reflexivity].
Qed.

(** The digits of a positive number: at least one, and no leading zero. *)
Lemma integerPart_normal (d : Decimal.uint) :
  d <> Decimal.Nil -> Decimal.unorm d = d -> integerPart d = true.
Proof.
  intros Hnil Hnorm. destruct d as [|u|u|u|u|u|u|u|u|u|u];
    try reflexivity; [contradiction|].
  destruct u as [|v|v|v|v|v|v|v|v|v|v]; try reflexivity; exfalso;
    match type of Hnorm with
    | Decimal.unorm (Decimal.D0 ?w) = _ =>
        assert (Hlen : Decimal.nb_digits (Decimal.unorm w)
                       <= Decimal.nb_digits w)
          by (apply nb_digits_unorm; discriminate);
        change (Decimal.unorm (Decimal.D0 w)) with (Decimal.unorm w) in Hnorm;
        rewrite Hnorm in Hlen; simpl in Hlen; lia
    end.
Qed.

Lemma integerPart_to_uint (p : positive) : integerPart (Pos.to_uint p) = true.
Proof.
  apply integerPart_normal.
  - apply Unsigned.to_uint_nonnil.
  - pose proof (Unsigned.to_of (Pos.to_uint p)) as Hnorm.
    rewrite Unsigned.of_to in Hnorm. symmetry. exact Hnorm.
Qed.

Lemma parseMagnitude_digits (u : Decimal.uint) (rest : string) :
  integerPart u = true -> numberEnds rest = true ->
  parseMagnitude (NilEmpty.string_of_uint u ++ rest) = Some (Z.of_uint u, rest).
Proof.
  intros Hint Hend. unfold parseMagnitude.
  rewrite (takeDigits_text _ _ Hend), Hint.
  rewrite (parseFraction_none _ Hend), (parseExponent_none _ Hend).
  rewrite app_nil_r. simpl. now rewrite Z.mul_1_r.
Qed.

Lemma parseNumber_unsigned (u : Decimal.uint) (rest : string) :
  integerPart u = true ->
  parseNumber (NilEmpty.string_of_uint u ++ rest)
  = parseMagnitude (NilEmpty.string_of_uint u ++ rest).
Proof. destruct u; try discriminate; reflexivity. Qed.

Lemma Number_toString_pos (p : positive) :
  Number_toString (Z.pos p) = NilEmpty.string_of_uint (Pos.to_uint p).
Proof.
  unfold Number_toString. simpl.
  pose proof (Unsigned.to_uint_nonnil p).
  now destruct (Pos.to_uint p).
Qed.

Lemma Number_toString_neg (p : positive) :
  Number_toString (Z.neg p)
  = String "-" (NilEmpty.string_of_uint (Pos.to_uint p)).
Proof.
  unfold Number_toString. simpl.
  pose proof (Unsigned.to_uint_nonnil p).
  now destruct (Pos.to_uint p).
Qed.

Lemma of_uint_to_uint (p : positive) : Z.of_uint (Pos.to_uint p) = Z.pos p.
Proof. unfold Z.of_uint. now rewrite Unsigned.of_to. Qed.

Lemma parseNumber_text (z : Z) (rest : string) :
  numberEnds rest = true ->
  parseNumber (Number_toString z ++ rest) = Some (z, rest).
Proof.
  intros Hend. destruct z as [|p|p].
  - change (Number_toString 0)
      with (NilEmpty.string_of_uint (Decimal.D0 Decimal.Nil)).
    rewrite parseNumber_unsigned by reflexivity.
    now rewrite parseMagnitude_digits.
  - rewrite Number_toString_pos.
    rewrite parseNumber_unsigned by apply integerPart_to_uint.
    rewrite parseMagnitude_digits by (auto using integerPart_to_uint).
    now rewrite of_uint_to_uint.
  - rewrite Number_toString_neg. cbn [append parseNumber].
    change (Ascii.eqb "-" "-") with true. cbv iota.
    rewrite parseMagnitude_digits by (auto using integerPart_to_uint).
    now rewrite of_uint_to_uint.
Qed.

Lemma numberHead_text (z : Z) (rest : string) :
  numberHead (Number_toString z ++ rest) = true.
Proof.
  destruct z as [|p|p].
  - reflexivity.
  - rewrite Number_toString_pos.
    pose proof (integerPart_to_uint p).
    destruct (Pos.to_uint p); try discriminate; reflexivity.
  - rewrite Number_toString_neg. reflexivity.
Qed.

(** A number literal is read by [parseNumber]. *)
Lemma parseAt_number (value : string -> option (json * string)) (n : nat)
    (s : string) :
  numberHead s = true ->
  parseAt value n s =
    match parseNumber s with
    | Some (z, rest) => Some (JNumber z, rest)
    | None => None
    end.
Proof.
  destruct s as [|c r]; [discriminate|].
  destruct c as [[] [] [] [] [] [] [] []]; try discriminate; reflexivity.
Qed.

Lemma numberHead_valueHead (s : string) :
  numberHead s = true -> valueHead s = true.
Proof.
  destruct s as [|c r]; [discriminate|].
  destruct c as [[] [] [] [] [] [] [] []]; try discriminate; reflexivity.
Qed.

(** ** String literals *)

Lemma parseChars_escapeChar (c : ascii) (tail : string) :
  parseChars (escapeChar c ++ tail) =
    match parseChars tail with
    | Some (t, rest) => Some (String c t, rest)
    | None => None
    end.
Proof.
  destruct c as [[] [] [] [] [] [] [] []]; reflexivity.
Qed.

Lemma parseChars_escape (s rest : string) :
  parseChars (escape s ++ dquote ++ rest) = Some (s, rest).
Proof.
  induction s as [|c s IH]; [reflexivity|].
  cbn [escape]. rewrite append_assoc, parseChars_escapeChar, IH.
  reflexivity.
Qed.

Lemma parseAt_string (value : string -> option (json * string)) (n : nat)
    (s rest : string) :
  parseAt value n (QuoteJSONString s ++ rest) = Some (JString s, rest).
Proof.
  unfold QuoteJSONString. rewrite !append_assoc.
  change (dquote ++ escape s ++ dquote ++ rest)%string
    with (String "034"%char (escape s ++ dquote ++ rest)).
  cbn [parseAt].
  change (Ascii.eqb "034" "{") with false.
  change (Ascii.eqb "034" "[") with false.
  change (Nat.eqb (nat_of_ascii "034") 34) with true.
  cbv iota. now rewrite parseChars_escape.
Qed.

(** ** Objects without repeated keys *)

Lemma setMember_fresh (key : string) (v : json)
    (members : list (string * json)) :
  existsb (String.eqb key) (map fst members) = false ->
  setMember key v members = members ++ [(key, v)].
Proof.
  induction members as [|[k old] rest IH]; simpl; [reflexivity|].
  intros H. apply orb_false_iff in H. destruct H as [Hk Hrest].
  rewrite String.eqb_sym, Hk. now rewrite IH.
Qed.

Lemma distinctKeys_snoc (keys : list string) (k : string) :
  distinctKeys (keys ++ [k]) = true ->
  distinctKeys keys = true /\ existsb (String.eqb k) keys = false.
Proof.
  induction keys as [|x keys IH]; simpl; [now split|].
  intros H. apply andb_true_iff in H. destruct H as [Hx Hd].
  apply negb_true_iff in Hx. rewrite existsb_app in Hx.
  apply orb_false_iff in Hx. destruct Hx as [Hx Hxk].
  destruct (IH Hd) as [Hd' Hk]. simpl in Hxk.
  apply orb_false_iff in Hxk. destruct Hxk as [Hxk _].
  rewrite Hx, Hd', Hk. rewrite String.eqb_sym, Hxk. now split.
Qed.

Lemma objectOf_distinct (members : list (string * json)) :
  distinctKeys (map fst members) = true -> objectOf members = members.
Proof.
  unfold objectOf. induction members as [|[k v] rest IH] using rev_ind;
    [reflexivity|].
  intros H. rewrite map_app in H. simpl in H.
  apply distinctKeys_snoc in H. destruct H as [Hd Hk].
  rewrite fold_left_app. simpl. rewrite (IH Hd).
  now apply setMember_fresh.
Qed.

(** ** Collections *)

Lemma joinWith_more (sep p q : string) (rest : list string) :
  joinWith sep (p :: q :: rest) = (p ++ sep ++ joinWith sep (q :: rest))%string.
Proof. reflexivity. Qed.

Lemma parseItems_comma (value : string -> option (json * string)) (n : nat)
    (s x : string) (v : json) :
  value s = Some (v, String "," x) ->
  parseItems value (S n) s =
    match parseItems value n x with
    | Some (vs, rest) => Some (v :: vs, rest)
    | None => None
    end.
Proof. intros H. simpl. rewrite H. reflexivity. Qed.

Lemma parseItems_last (value : string -> option (json * string)) (n : nat)
    (s w x : string) (v : json) :
  value s = Some (v, (w ++ String "]" x)%string) -> allWs w = true ->
  parseItems value (S n) s = Some ([v], x).
Proof.
  intros H Hw. simpl. rewrite H, (skipWs_append _ _ Hw). reflexivity.
Qed.

Section Collections.

(** [value] parses one item and [text] is the text of an item. *)
Variable value : string -> option (json * string).
Variable text : json -> string.

(** White space [lead] before every item, [close] before the closing
    bracket. *)
Variables lead close : string.
Hypothesis lead_ws : allWs lead = true.
Hypothesis close_ws : allWs close = true.

Lemma parseItems_text (items : list json) :
  forall n rest,
    items <> [] -> Forall (parsesBack value text) items ->
    length items <= n ->
    parseItems value n
      (lead ++ joinWith ("," ++ lead) (map text items)
            ++ close ++ "]" ++ rest)
    = Some (items, rest).
Proof.
  induction items as [|v items IH]; intros n rest Hne Hall Hlen;
    [contradiction|].
  inversion Hall as [|? ? Hv Hitems]; subst.
  destruct n as [|n]; [simpl in Hlen; lia|].
  destruct items as [|v' items].
  - apply (parseItems_last _ _ _ close); [|exact close_ws].
    apply (Hv lead _ lead_ws).
    apply numberEnds_after_ws; [exact close_ws | reflexivity].
  - change (map text (v :: v' :: items))
      with (text v :: text v' :: map text items).
    rewrite joinWith_more, !append_assoc.
    rewrite (parseItems_comma _ _ _
               (lead ++ joinWith ("," ++ lead) (map text (v' :: items))
                     ++ close ++ "]" ++ rest) v).
    + rewrite (IH n rest); [reflexivity | discriminate | exact Hitems |].
      simpl in Hlen |- *. lia.
    + apply (Hv lead _ lead_ws). reflexivity.
Qed.

End Collections.

Lemma skipWs_dquote (y : string) : skipWs (dquote ++ y) = (dquote ++ y)%string.
Proof. reflexivity. Qed.

Lemma parseMembers_key (value : string -> option (json * string)) (n : nat)
    (s y : string) (k : string) :
  skipWs s = (dquote ++ escape k ++ dquote ++ ":" ++ y)%string ->
  parseMembers value (S n) s =
    match value y with
    | Some (v, r3) =>
        match skipWs r3 with
        | String d r4 =>
            if Ascii.eqb d "," then
              match parseMembers value n r4 with
              | Some (ms, rest) => Some ((k, v) :: ms, rest)
              | None => None
              end
            else if Ascii.eqb d "}" then Some ([(k, v)], r4)
            else None
        | EmptyString => None
        end
    | None => None
    end.
Proof.
  intros Hs. cbn [parseMembers]. rewrite Hs.
  change (dquote ++ escape k ++ dquote ++ ":" ++ y)%string
    with (String "034"%char (escape k ++ dquote ++ String ":" y)).
  cbv iota beta.
  change (Nat.eqb (nat_of_ascii "034") 34) with true. cbv iota.
  rewrite parseChars_escape. reflexivity.
Qed.

Lemma parseMembers_comma (value : string -> option (json * string)) (n : nat)
    (s y x : string) (k : string) (m : json) :
  skipWs s = (dquote ++ escape k ++ dquote ++ ":" ++ y)%string ->
  value y = Some (m, String "," x) ->
  parseMembers value (S n) s =
    match parseMembers value n x with
    | Some (ms, rest) => Some ((k, m) :: ms, rest)
    | None => None
    end.
Proof.
  intros Hs Hv. rewrite (parseMembers_key _ _ _ _ _ Hs), Hv. reflexivity.
Qed.

Lemma parseMembers_last (value : string -> option (json * string)) (n : nat)
    (s y w x : string) (k : string) (m : json) :
  skipWs s = (dquote ++ escape k ++ dquote ++ ":" ++ y)%string ->
  value y = Some (m, (w ++ String "}" x)%string) -> allWs w = true ->
  parseMembers value (S n) s = Some ([(k, m)], x).
Proof.
  intros Hs Hv Hw. rewrite (parseMembers_key _ _ _ _ _ Hs), Hv.
  rewrite (skipWs_append _ _ Hw). reflexivity.
Qed.

Section Members.

Variable value : string -> option (json * string).
Variable text : json -> string.

(** White space [lead] before every member, [close] before the closing
    brace, [gapc] after every colon. *)
Variables lead close gapc : string.
Hypothesis lead_ws : allWs lead = true.
Hypothesis close_ws : allWs close = true.
Hypothesis gapc_ws : allWs gapc = true.

Lemma parseMembers_text (members : list (string * json)) :
  forall n rest,
    members <> [] ->
    Forall (fun km => parsesBack value text (snd km)) members ->
    length members <= n ->
    parseMembers value n
      (lead ++ joinWith ("," ++ lead) (map (memberText gapc text) members)
            ++ close ++ "}" ++ rest)
    = Some (members, rest).
Proof.
  induction members as [|[k m] members IH]; intros n rest Hne Hall Hlen;
    [contradiction|].
  inversion Hall as [|? ? Hm Hmembers]; subst. cbn [snd] in Hm.
  destruct n as [|n]; [simpl in Hlen; lia|].
  destruct members as [|km' members].
  - apply (parseMembers_last _ _ _ (gapc ++ text m ++ close ++ "}" ++ rest)
             close).
    + rewrite (skipWs_append _ _ lead_ws).
      cbn [map joinWith]. unfold memberText, QuoteJSONString.
      rewrite !append_assoc. apply skipWs_dquote.
    + apply (Hm gapc _ gapc_ws).
      apply numberEnds_after_ws; [exact close_ws | reflexivity].
    + exact close_ws.
  - change (map (memberText gapc text) ((k, m) :: km' :: members))
      with (memberText gapc text (k, m)
            :: memberText gapc text km' :: map (memberText gapc text) members).
    rewrite joinWith_more.
    change (memberText gapc text km' :: map (memberText gapc text) members)
      with (map (memberText gapc text) (km' :: members)).
    rewrite (parseMembers_comma _ _ _
               (gapc ++ text m ++ "," ++ lead
                     ++ joinWith ("," ++ lead)
                                 (map (memberText gapc text) (km' :: members))
                     ++ close ++ "}" ++ rest)
               (lead ++ joinWith ("," ++ lead)
                                 (map (memberText gapc text) (km' :: members))
                     ++ close ++ "}" ++ rest) k m).
    + rewrite (IH n rest); [reflexivity | discriminate | exact Hmembers |].
      simpl in Hlen |- *. lia.
    + rewrite (skipWs_append _ _ lead_ws).
      unfold memberText at 1. unfold QuoteJSONString.
      rewrite !append_assoc. apply skipWs_dquote.
    + apply (Hm gapc _ gapc_ws). reflexivity.
Qed.

End Members.

(** ** Induction on JSON values *)

Lemma json_nested_ind (P : json -> Prop) :
  P JNull ->
  (forall b, P (JBool b)) ->
  (forall z, P (JNumber z)) ->
  (forall s, P (JString s)) ->
  (forall items, Forall P items -> P (JArray items)) ->
  (forall members, Forall (fun km => P (snd km)) members ->
                   P (JObject members)) ->
  forall v, P v.
Proof.
  intros HN HB HZ HS HA HO. fix self 1.
  intros [ | b | z | s | items | members ].
  - exact HN.
  - apply HB.
  - apply HZ.
  - apply HS.
  - apply HA. revert items. fix each 1.
    intros [|v items]; constructor; [apply self | apply each].
  - apply HO. revert members. fix each 1.
    intros [|[k v] members]; constructor; [apply self | apply each].
Qed.

Lemma weight_pos (v : json) : 1 <= weight v.
Proof. destruct v; simpl; lia. Qed.

Lemma weight_item (items : list json) (x : json) :
  In x items -> weight x <= list_sum (map weight items).
Proof.
  induction items as [|v items IH]; simpl; [contradiction|].
  intros [<- | Hin]; [lia|]. specialize (IH Hin). lia.
Qed.

Lemma weight_member (members : list (string * json)) (km : string * json) :
  In km members ->
  weight (snd km) <= list_sum (map (fun '(_, m) => weight m) members).
Proof.
  induction members as [|[k v] members IH]; simpl; [contradiction|].
  intros [<- | Hin]; [simpl; lia|]. specialize (IH Hin). lia.
Qed.

Lemma length_le_weights (items : list json) :
  length items <= list_sum (map weight items).
Proof.
  induction items as [|v items IH]; simpl; [lia|].
  pose proof (weight_pos v). lia.
Qed.

Lemma length_le_member_weights (members : list (string * json)) :
  length members <= list_sum (map (fun '(_, m) => weight m) members).
Proof.
  induction members as [|[k v] members IH]; simpl; [lia|].
  pose proof (weight_pos v). lia.
Qed.

(** ** Reading back what [serialize] wrote *)

Lemma parseValue_skip (fuel : nat) (w s : string) :
  allWs w = true -> parseValue fuel (w ++ s) = parseValue fuel s.
Proof.
  intros Hw. destruct fuel as [|f]; [reflexivity|].
  cbn [parseValue]. now rewrite (skipWs_append _ _ Hw).
Qed.

Lemma serialize_array (gap indent : string) (v : json) (items : list json) :
  serialize gap indent (JArray (v :: items)) =
    ("[" ++ lineBreak gap (indent ++ gap)
     ++ joinWith ("," ++ lineBreak gap (indent ++ gap))
                 (map (serialize gap (indent ++ gap)) (v :: items))
     ++ lineBreak gap indent ++ "]")%string.
Proof. reflexivity. Qed.

Lemma serialize_object (gap indent : string) (km : string * json)
    (members : list (string * json)) :
  serialize gap indent (JObject (km :: members)) =
    ("{" ++ lineBreak gap (indent ++ gap)
     ++ joinWith ("," ++ lineBreak gap (indent ++ gap))
                 (map (fun '(k, m) =>
                         (QuoteJSONString k ++ ":" ++ colonGap gap
                          ++ serialize gap (indent ++ gap) m)%string)
                      (km :: members))
     ++ lineBreak gap indent ++ "}")%string.
Proof. reflexivity. Qed.

Lemma serialize_valueHead (gap indent : string) (v : json) (y : string) :
  valueHead (serialize gap indent v ++ y) = true.
Proof.
  destruct v as [ | [] | z | s | [|v items] | [|km members] ];
    try reflexivity.
  apply numberHead_valueHead, numberHead_text.
Qed.

Lemma joinWith_valueHead (sep t : string) (ts : list string) (y : string) :
  (forall z, valueHead (t ++ z) = true) ->
  valueHead (joinWith sep (t :: ts) ++ y) = true.
Proof.
  intros H. destruct ts as [|t' ts]; cbn [joinWith]; [apply H|].
  rewrite append_assoc. apply H.
Qed.

Lemma parseAt_array (value : string -> option (json * string)) (n : nat)
    (x : string) :
  valueHead (skipWs x) = true ->
  parseAt value n (String "[" x) =
    match parseItems value n x with
    | Some (vs, rest) => Some (JArray vs, rest)
    | None => None
    end.
Proof.
  intros H. cbn [parseAt].
  change (Ascii.eqb "[" "{") with false.
  change (Ascii.eqb "[" "[") with true. cbv iota.
  destruct (skipWs x) as [|d r']; [discriminate|].
  simpl in H. apply andb_true_iff in H. destruct H as [_ H].
  apply negb_true_iff in H. now rewrite H.
Qed.

Lemma parseAt_object (value : string -> option (json * string)) (n : nat)
    (x y : string) :
  skipWs x = (dquote ++ y)%string ->
  parseAt value n (String "{" x) =
    match parseMembers value n x with
    | Some (ms, rest) => Some (JObject (objectOf ms), rest)
    | None => None
    end.
Proof.
  intros H. cbn [parseAt].
  change (Ascii.eqb "{" "{") with true. cbv iota.
  rewrite H. reflexivity.
Qed.

Theorem parseValue_serialize (v : json) :
  wellFormed v = true ->
  forall gap indent fuel rest,
    allWs gap = true -> allWs indent = true ->
    weight v <= fuel -> numberEnds rest = true ->
    parseValue fuel (serialize gap indent v ++ rest) = Some (v, rest).
Proof.
  induction v as [ | b | z | s | items IH | members IH ] using json_nested_ind;
    intros Hwf gap indent fuel rest Hgap Hind Hfuel Hend;
    (destruct fuel as [|f];
     [pose proof (weight_pos JNull); simpl in Hfuel; lia|]);
    cbn [parseValue].
  - reflexivity.
  - destruct b; reflexivity.
  - cbn [serialize].
    rewrite skipWs_valueHead by apply numberHead_valueHead, numberHead_text.
    rewrite parseAt_number by apply numberHead_text.
    now rewrite parseNumber_text.
  - cbn [serialize].
    rewrite skipWs_valueHead
      by apply (serialize_valueHead gap indent (JString s)).
    apply parseAt_string.
  - destruct items as [|v items]; [reflexivity|].
    rewrite serialize_array, !append_assoc.
    set (indent' := (indent ++ gap)%string).
    assert (Hind' : allWs indent' = true) by now apply allWs_append.
    change (skipWs ("[" ++ ?x)) with (String "[" x).
    rewrite parseAt_array.
    + rewrite (parseItems_text (parseValue f) (serialize gap indent')
                 (lineBreak gap indent') (lineBreak gap indent));
        auto using allWs_lineBreak; try discriminate.
      * apply Forall_forall. intros x Hx w rest' Hw Hend'.
        rewrite (parseValue_skip _ _ _ Hw).
        rewrite Forall_forall in IH. apply (IH x Hx); try assumption.
        -- cbn [wellFormed] in Hwf. rewrite forallb_forall in Hwf.
           now apply Hwf.
        -- pose proof (weight_item _ _ Hx). cbn [weight] in Hfuel. lia.
      * pose proof (length_le_weights (v :: items)).
        cbn [weight] in Hfuel. lia.
    + rewrite skipWs_append by now apply allWs_lineBreak.
      cbn [map].
      rewrite skipWs_valueHead;
        apply joinWith_valueHead; intros; apply serialize_valueHead.
  - destruct members as [|[k m] members]; [reflexivity|].
    rewrite serialize_object, !append_assoc.
    set (indent' := (indent ++ gap)%string).
    assert (Hind' : allWs indent' = true) by now apply allWs_append.
    change (skipWs ("{" ++ ?x)) with (String "{" x).
    cbn [wellFormed] in Hwf. apply andb_true_iff in Hwf.
    destruct Hwf as [Hkeys Hwf].
    rewrite (parseAt_object _ _ _
               (escape k ++ dquote ++ ":" ++ colonGap gap
                ++ serialize gap indent' m
                ++ match members with
                   | [] => ""
                   | _ => "," ++ lineBreak gap indent'
                          ++ joinWith ("," ++ lineBreak gap indent')
                               (map (fun '(k, m) =>
                                  (QuoteJSONString k ++ ":" ++ colonGap gap
                                   ++ serialize gap indent' m)%string) members)
                   end
                ++ lineBreak gap indent ++ "}" ++ rest)).
    + rewrite (parseMembers_text (parseValue f) (serialize gap indent')
                 (lineBreak gap indent') (lineBreak gap indent) (colonGap gap));
        auto using allWs_lineBreak, allWs_colonGap; try discriminate.
      * now rewrite (objectOf_distinct _ Hkeys).
      * apply Forall_forall. intros x Hx w rest' Hw Hend'.
        rewrite (parseValue_skip _ _ _ Hw).
        rewrite Forall_forall in IH. apply (IH x Hx); try assumption.
        -- rewrite forallb_forall in Hwf. specialize (Hwf x Hx).
           now destruct x.
        -- pose proof (weight_member _ _ Hx). cbn [weight] in Hfuel. lia.
      * pose proof (length_le_member_weights ((k, m) :: members)).
        cbn [weight] in Hfuel. lia.
    + rewrite skipWs_append by now apply allWs_lineBreak.
      destruct members as [|km' members]; cbn [map joinWith];
        unfold QuoteJSONString at 1; rewrite !append_assoc;
        apply skipWs_dquote.
Qed.

(** ** The text is long enough to be its own fuel *)

Lemma joinWith_weights {A} (w : A -> nat) (t : A -> string) (sep : string)
    (l : list A) :
  Forall (fun a => w a <= String.length (t a)) l ->
  list_sum (map w l) <= String.length (joinWith sep (map t l)).
Proof.
  induction 1 as [|a l Ha Hl IH]; [simpl; lia|].
  destruct l as [|b l].
  - simpl. lia.
  - change (map t (a :: b :: l)) with (t a :: t b :: map t l).
    rewrite joinWith_more, !length_append.
    change (t b :: map t l) with (map t (b :: l)).
    change (list_sum (map w (a :: b :: l)))
      with (w a + list_sum (map w (b :: l))).
    lia.
Qed.

Lemma Number_toString_length (z : Z) : 1 <= String.length (Number_toString z).
Proof.
  pose proof (numberHead_text z "") as H. rewrite append_empty_r in H.
  destruct (Number_toString z); [discriminate | simpl; lia].
Qed.

Lemma weight_le_length (v : json) :
  forall gap indent, weight v <= String.length (serialize gap indent v).
Proof.
  induction v as [ | b | z | s | items IH | members IH ] using json_nested_ind;
    intros gap indent.
  - simpl. lia.
  - destruct b; simpl; lia.
  - apply Number_toString_length.
  - simpl. lia.
  - destruct items as [|v items]; [simpl; lia|].
    rewrite serialize_array, !length_append. cbn [weight].
    pose proof (joinWith_weights weight (serialize gap (indent ++ gap))
                  ("," ++ lineBreak gap (indent ++ gap)) (v :: items)) as H.
    assert (Hall : Forall (fun a => weight a
                     <= String.length (serialize gap (indent ++ gap) a))
                          (v :: items)).
    { revert IH. apply Forall_impl. intros a Ha. apply Ha. }
    specialize (H Hall). simpl String.length at 1. lia.
  - destruct members as [|km members]; [simpl; lia|].
    rewrite serialize_object, !length_append. cbn [weight].
    pose proof (joinWith_weights (fun '(_, m) => weight m)
                  (fun '(k, m) =>
                     (QuoteJSONString k ++ ":" ++ colonGap gap
                      ++ serialize gap (indent ++ gap) m)%string)
                  ("," ++ lineBreak gap (indent ++ gap)) (km :: members)) as H.
    assert (Hall : Forall (fun a : string * json =>
                     (let '(_, m) := a in weight m)
                     <= String.length
                          (let '(k, m) := a in
                           (QuoteJSONString k ++ ":" ++ colonGap gap
                            ++ serialize gap (indent ++ gap) m)%string))
                          (km :: members)).
    { revert IH. apply Forall_impl. intros [k m] Ha. cbn [snd] in Ha.
      rewrite !length_append. specialize (Ha gap (indent ++ gap)%string). lia. }
    specialize (H Hall). simpl String.length at 1. lia.
Qed.

(** The reference [JSON.parse] reads back what the reference
    [JSON.stringify] wrote, for every well-formed value and every
    indentation. *)
Theorem parse_stringify (v : json) (space : nat) :
  wellFormed v = true -> parse (stringify v space) = Some v.
Proof.
  intros Hwf. unfold parse, stringify.
  set (gap := spaces (Nat.min space 10)).
  pose proof (parseValue_serialize v Hwf gap "" 
                (S (String.length (serialize gap "" v))) ""
                (allWs_spaces _) eq_refl) as H.
  rewrite append_empty_r in H. rewrite H; [reflexivity | | reflexivity].
  pose proof (weight_le_length v gap ""). lia.
Qed.

(** ** The snapshot of a store state *)

Lemma wellFormed_encodeNode (n : FunnelNode) : wellFormed (encodeNode n) = true.
Proof. reflexivity. Qed.

Lemma wellFormed_encodeEdge (e : FunnelEdge) : wellFormed (encodeEdge e) = true.
Proof.
  destruct e as [i [s|] [t|] [sh|] [th|] ty an mk stl]; reflexivity.
Qed.

Lemma wellFormed_snapshotOf (st : FunnelState) :
  wellFormed (snapshotJson (snapshotOf st)) = true.
Proof.
  unfold snapshotJson, snapshotOf.
  cbn [snap_nodes snap_edges snap_nodeCounters].
  cbn [wellFormed map fst forallb].
  assert (Hn : forallb wellFormed (map encodeNode (nodes st)) = true).
  { apply forallb_forall. intros x Hx. apply in_map_iff in Hx.
    destruct Hx as [n [<- _]]. apply wellFormed_encodeNode. }
  assert (He : forallb wellFormed (map encodeEdge (edges st)) = true).
  { apply forallb_forall. intros x Hx. apply in_map_iff in Hx.
    destruct Hx as [e [<- _]]. apply wellFormed_encodeEdge. }
  rewrite Hn, He. reflexivity.
Qed.



(** ** The snapshot determines the state *)












(* ================================================================= *)
(** * Further properties of the store *)

(** ** Deleting *)

Lemma filter_keeps_all {A} (f : A -> bool) (l : list A) :
  (forall x, In x l -> f x = true) -> filter f l = l.
Proof.
  induction l as [|x l IH]; intros H; [reflexivity|]. simpl.
  rewrite (H x (or_introl eq_refl)). f_equal. apply IH.
  intros y Hy. apply H. now right.
Qed.

Lemma hasNode_false (a : string) (st : FunnelState) :
  hasNode (Some a) st = false ->
  forall n, In n (nodes st) -> String.eqb (node_id n) a = false.
Proof.
  unfold hasNode. intros H n Hn.
  destruct (String.eqb (node_id n) a) eqn:E; [|reflexivity].
  assert (Hex : existsb (fun m => nullable_is (Some a) (node_id m)) (nodes st)
                = true).
  { apply existsb_exists. exists n. split; [assumption|]. simpl.
    now rewrite String.eqb_sym. }
  congruence.
Qed.

Lemma absent_nodes_kept (st : FunnelState) (nodeId : string) :
  hasNode (Some nodeId) st = false ->
  filter (fun n => negb (String.eqb (node_id n) nodeId)) (nodes st)
  = nodes st.
Proof.
  intros Habs. apply filter_keeps_all. intros n Hn.
  apply negb_true_iff. exact (hasNode_false _ _ Habs n Hn).
Qed.

Lemma absent_edges_kept (st : FunnelState) (nodeId : string) :
  edgesClosed st = true ->
  hasNode (Some nodeId) st = false ->
  filter (fun e => negb (nullable_is (edge_source e) nodeId)
                   && negb (nullable_is (edge_target e) nodeId)) (edges st)
  = edges st.
Proof.
  intros Hclosed Habs. apply filter_keeps_all. intros e He.
  destruct (proj1 (edgesClosed_true _) Hclosed e He) as [Hs Ht].
  apply hasNode_true in Hs. apply hasNode_true in Ht.
  destruct Hs as [n [Hn Hsrc]]. destruct Ht as [m [Hm Htgt]].
  rewrite Hsrc, Htgt. simpl.
  rewrite (hasNode_false _ _ Habs n Hn), (hasNode_false _ _ Habs m Hm).
  reflexivity.
Qed.

(** X1.  Deleting a node twice is deleting it once, and two nodes can be
    deleted in either order: the nodes, edges and counters left are the
    same. *)
Theorem deleteNode_composes (st : FunnelState) (a b : string) :
  deleteNode a (deleteNode a st) = deleteNode a st
  /\ deleteNode a (deleteNode b st) = deleteNode b (deleteNode a st).
Proof.
  split; [apply deleteNode_idempotent|].
  unfold deleteNode. cbn [nodes edges nodeCounters]. f_equal.
  - induction (nodes st) as [|n ns IH]; [reflexivity|]. simpl.
    destruct (String.eqb (node_id n) a) eqn:Ea,
             (String.eqb (node_id n) b) eqn:Eb; simpl;
      rewrite ?Ea, ?Eb; simpl; now rewrite IH.
  - induction (edges st) as [|e es IH]; [reflexivity|]. simpl.
    destruct (negb (nullable_is (edge_source e) a)
              && negb (nullable_is (edge_target e) a)) eqn:Ea,
             (negb (nullable_is (edge_source e) b)
              && negb (nullable_is (edge_target e) b)) eqn:Eb; simpl;
      rewrite ?Ea, ?Eb; simpl; now rewrite IH.
Qed.

(** X2.  Deleting an id that no node carries changes nothing, on a canvas
    whose edges all join present nodes: nodes, edges and counters are the
    ones before. *)
Theorem deleteNode_absent (st : FunnelState) (nodeId : string) :
  edgesClosed st = true ->
  hasNode (Some nodeId) st = false ->
  deleteNode nodeId st = st.
Proof.
  intros Hclosed Habs. unfold deleteNode.
  rewrite (absent_nodes_kept _ _ Habs), (absent_edges_kept _ _ Hclosed Habs).
  now destruct st.
Qed.

Lemma deleteNode_absent_witness :
  deleteNode "upsell-7"
    (onConnect (link "sales-1000" "thankyou-1001") scenario)
  = onConnect (link "sales-1000" "thankyou-1001") scenario.
Proof. apply deleteNode_absent; reflexivity. Defined.

(** X3.  [deleteEdge edgeId] removes every edge whose id is [edgeId] and no
    other, and leaves nodes and counters alone.  The id [onConnect] gives an
    edge is made of its source and target only, so the edges built from two
    connections between the same ordered pair go together, whatever their
    handles. *)
Theorem deleteEdge_removes_parallel_edges
    (st : FunnelState) (c c' : Connection) :
  conn_source c = conn_source c' ->
  conn_target c = conn_target c' ->
  let st' := deleteEdge (edge_id (newEdge c)) st in
  (forall e, In e (edges st') <->
             In e (edges st) /\ edge_id e <> edge_id (newEdge c))
  /\ ~ In (newEdge c) (edges st')
  /\ ~ In (newEdge c') (edges st')
  /\ nodes st' = nodes st
  /\ nodeCounters st' = nodeCounters st.
Proof.
  intros Hs Ht st'.
  assert (Hiff : forall e, In e (edges st') <->
                   In e (edges st) /\ edge_id e <> edge_id (newEdge c)).
  { intros e. subst st'. cbn [deleteEdge edges]. rewrite filter_In.
    rewrite negb_true_iff, String.eqb_neq. reflexivity. }
  split; [exact Hiff|].
  repeat split.
  - intros Hin. apply Hiff in Hin. now destruct Hin.
  - intros Hin. apply Hiff in Hin. destruct Hin as [_ Hne]. apply Hne.
    unfold newEdge. cbn [edge_id]. now rewrite Hs, Ht.
Qed.

Lemma deleteEdge_removes_parallel_edges_witness :
  ~ In (newEdge (linkOn "bottom" "sales-1000" "thankyou-1001"))
       (edges (deleteEdge
                 (edge_id (newEdge (link "sales-1000" "thankyou-1001")))
                 (onConnect (linkOn "bottom" "sales-1000" "thankyou-1001")
                    (onConnect (link "sales-1000" "thankyou-1001")
                       scenario)))).
Proof.
  exact (proj1 (proj2 (proj2
           (deleteEdge_removes_parallel_edges
              (onConnect (linkOn "bottom" "sales-1000" "thankyou-1001")
                 (onConnect (link "sales-1000" "thankyou-1001") scenario))
              (link "sales-1000" "thankyou-1001")
              (linkOn "bottom" "sales-1000" "thankyou-1001")
              eq_refl eq_refl)))).
Defined.

(** ** Counters and nodes along a run *)

Lemma perform_counter (a : Action) (st : FunnelState) (t : NodeType) :
  nodeCounters (perform a st) t = nodeCounters st t + countAdds t [a].
Proof.
  destruct a as [t' p now | x | x | c | x l]; cbn [perform countAdds];
    try (simpl; lia).
  - cbn [addNode nodeCounters].
    destruct (NodeType_eqb t t') eqn:E.
    + apply NodeType_eqb_eq in E. subst t'.
      rewrite NodeType_eqb_refl. lia.
    + assert (E' : NodeType_eqb t' t = false).
      { destruct t, t'; try reflexivity; discriminate E. }
      rewrite E'. lia.
  - unfold onConnect. destruct (sourceIs _ _); simpl; lia.
Qed.

(** X4.  A counter counts the [addNode] calls of its category and nothing
    else: after any sequence of actions it is its old value plus the number
    of [addNode] calls of that category in the sequence.  Deleting never
    takes it back. *)
Theorem counters_count_creations
    (acts : list Action) (st : FunnelState) (t : NodeType) :
  nodeCounters (run acts st) t = nodeCounters st t + countAdds t acts.
Proof.
  revert st. induction acts as [|a rest IH]; intros st.
  - simpl. lia.
  - cbn [run]. rewrite IH, perform_counter.
    destruct a; cbn [countAdds]; lia.
Qed.

Lemma sameButLabel_refl (n : FunnelNode) : sameButLabel n n.
Proof. repeat split. Qed.

Lemma sameButLabel_trans (a b c : FunnelNode) :
  sameButLabel a b -> sameButLabel b c -> sameButLabel a c.
Proof.
  unfold sameButLabel. intros [A1 [A2 [A3 [A4 A5]]]] [B1 [B2 [B3 [B4 B5]]]].
  repeat split; congruence.
Qed.

Lemma perform_nodes (a : Action) (st : FunnelState) (n : FunnelNode) :
  In n (nodes (perform a st)) ->
  (exists n0, In n0 (nodes st) /\ sameButLabel n0 n)
  \/ (exists c, In c (creations [a] st) /\ made c = n).
Proof.
  destruct a as [t p now | x | x | c | x l]; cbn [perform]; intros Hin.
  - cbn [addNode nodes] in Hin. apply in_app_or in Hin.
    destruct Hin as [Hin | [<- | []]].
    + left. exists n. split; [assumption | apply sameButLabel_refl].
    + right. eexists. split; [left; reflexivity | reflexivity].
  - left. exists n. split; [|apply sameButLabel_refl].
    cbn [deleteNode nodes] in Hin. now apply filter_In in Hin.
  - left. exists n. split; [exact Hin | apply sameButLabel_refl].
  - left. exists n. split; [|apply sameButLabel_refl].
    now rewrite onConnect_nodes in Hin.
  - left. cbn [updateNodeLabel nodes] in Hin. apply in_map_iff in Hin.
    destruct Hin as [n0 [Heq Hin]]. exists n0. split; [assumption|].
    destruct (String.eqb (node_id n0) x); subst n;
      [repeat split | apply sameButLabel_refl].
Qed.

(** X5.  No action of the store changes the id, the category, the position
    or the button text of a node: every node present after a sequence of
    [addNode], [deleteNode], [deleteEdge], [onConnect] and
    [updateNodeLabel] is, but for its label, a node that was there at the
    start or a node that an [addNode] of the sequence created. *)
Theorem nodes_keep_identity
    (acts : list Action) (st : FunnelState) (n : FunnelNode) :
  In n (nodes (run acts st)) ->
  (exists n0, In n0 (nodes st) /\ sameButLabel n0 n)
  \/ (exists c, In c (creations acts st) /\ sameButLabel (made c) n).
Proof.
  revert st. induction acts as [|a rest IH]; intros st Hin.
  - left. exists n. split; [exact Hin | apply sameButLabel_refl].
  - cbn [run] in Hin.
    destruct (IH _ Hin) as [[n1 [Hn1 Hsame]] | [c [Hc Hsame]]].
    + destruct (perform_nodes _ _ _ Hn1) as [[n0 [Hn0 H0]] | [c [Hc Hmade]]].
      * left. exists n0. split; [assumption|].
        exact (sameButLabel_trans _ _ _ H0 Hsame).
      * right. exists c. split.
        -- cbn [creations] in Hc |- *. rewrite List.app_nil_r in Hc.
           apply in_or_app. now left.
        -- now rewrite Hmade.
    + right. exists c. split; [|assumption].
      cbn [creations]. apply in_or_app. now right.
Qed.

Lemma nodes_keep_identity_witness :
  (exists n0, In n0 (nodes initialState) /\ sameButLabel n0 landing)
  \/ (exists c, In c (creations sampleRelabel initialState)
                /\ sameButLabel (made c) landing).
Proof.
  apply (nodes_keep_identity sampleRelabel initialState landing).
  left. reflexivity.
Defined.

Lemma creations_shape (acts : list Action) :
  forall st c, In c (creations acts st) ->
    exists now,
      node_id (made c) = stampId (creationType c, now)
      /\ node_type (made c) = "funnelNode"
      /\ data_buttonLabel (node_data (made c))
         = cfg_buttonLabel (NODE_CONFIGS (creationType c)).
Proof.
  induction acts as [|a rest IH]; intros st c Hin; [contradiction|].
  cbn [creations] in Hin. apply in_app_or in Hin. destruct Hin as [Hin | Hin].
  - destruct a as [t p now | | | | ]; try contradiction.
    destruct Hin as [<- | []]. exists now. repeat split.
  - exact (IH _ _ Hin).
Qed.

Lemma perform_keeps_wellMade (a : Action) (st : FunnelState) :
  (forall n, In n (nodes st) -> wellMade n) ->
  forall n, In n (nodes (perform a st)) -> wellMade n.
Proof.
  intros Hst n Hn.
  destruct (perform_nodes _ _ _ Hn) as [[n0 [Hn0 Hsame]] | [c [Hc <-]]].
  - destruct (Hst n0 Hn0) as [[now Hid] [Hty Hbtn]].
    destruct Hsame as [S1 [S2 [_ [S4 S5]]]].
    split; [exists now|split]; congruence.
  - destruct (creations_shape _ _ _ Hc) as [now [Hid [Hty Hbtn]]].
    split; [now exists now | split; assumption].
Qed.

(** X6.  On a canvas built from the empty one, every node has an id made of
    its own category and a clock reading, the React Flow type
    ['funnelNode'] and the button text [NODE_CONFIGS] gives its category,
    whatever was relabelled, connected or deleted since. *)
Theorem nodes_carry_their_category (acts : list Action) (n : FunnelNode) :
  In n (nodes (run acts initialState)) -> wellMade n.
Proof.
  assert (H0 : forall m, In m (nodes initialState) -> wellMade m)
    by (intros m []).
  revert H0. generalize initialState as st.
  induction acts as [|a rest IH]; intros st Hst Hn.
  - now apply Hst.
  - cbn [run] in Hn. apply (IH (perform a st)); [|exact Hn].
    now apply perform_keeps_wellMade.
Qed.

Lemma nodes_carry_their_category_witness : wellMade landing.
Proof.
  apply (nodes_carry_their_category sampleRelabel landing).
  left. reflexivity.
Defined.

(** ** What the validator reports *)

Lemma orphanIssues_warnings (ns : list FunnelNode) (es : list FunnelEdge)
    (i : ValidationIssue) :
  In i (orphanIssues ns es) ->
  issue_type i = warning
  /\ exists n, In n ns /\ issue_nodeId i = Some (node_id n).
Proof.
  unfold orphanIssues. intros H. apply in_flat_map in H.
  destruct H as [n [Hn Hi]].
  destruct (negb (hasIncoming es n) && negb (hasOutgoing es n)
            && Nat.ltb 1 (length ns)); [|contradiction].
  destruct Hi as [<- | []]. split; [reflexivity|]. now exists n.
Qed.

Lemma salesIssues_warnings (ns : list FunnelNode) (es : list FunnelEdge)
    (i : ValidationIssue) :
  In i (salesIssues ns es) ->
  issue_type i = warning
  /\ exists n, In n ns /\ issue_nodeId i = Some (node_id n).
Proof.
  unfold salesIssues. intros H. apply in_flat_map in H.
  destruct H as [n [Hn Hi]]. apply filter_In in Hn. destruct Hn as [Hn _].
  apply in_app_or in Hi.
  destruct Hi as [Hi | Hi];
    [ destruct (Nat.ltb 1 (length (outgoing es n)))
    | destruct (Nat.eqb (length (outgoing es n)) 0 && Nat.ltb 1 (length ns)) ];
    try contradiction;
    destruct Hi as [<- | []]; (split; [reflexivity | now exists n]).
Qed.

Lemma thankYouIssues_spec (ns : list FunnelNode) (es : list FunnelEdge)
    (i : ValidationIssue) :
  In i (thankYouIssues ns es) <->
  exists n, In n ns /\ data_type (node_data n) = thankyou
            /\ outgoing es n <> []
            /\ i = nodeIssue error n " should not have outgoing connections".
Proof.
  unfold thankYouIssues. rewrite in_flat_map. split.
  - intros [n [Hn Hi]]. apply filter_In in Hn. destruct Hn as [Hn Hty].
    apply NodeType_eqb_eq in Hty.
    destruct (outgoing es n) as [|e out] eqn:E; [contradiction|].
    destruct Hi as [<- | []]. exists n. repeat split; try assumption.
    now rewrite E.
  - intros [n [Hn [Hty [Hout ->]]]]. exists n. split.
    + apply filter_In. split; [assumption|].
      unfold isType. now rewrite Hty.
    + destruct (outgoing es n); [contradiction | now left].
Qed.

Lemma entryPointIssues_entryPoints
    (ns : list FunnelNode) (es : list FunnelEdge) :
  entryPointIssues ns es =
    if Nat.ltb 1 (length (entryPoints ns es)) && Nat.ltb 1 (length ns)
    then [entryPointIssue (length (entryPoints ns es))] else [].
Proof. reflexivity. Qed.

Lemma error_issue_origin (st : FunnelState) (i : ValidationIssue) :
  In i (getValidationIssues st) -> issue_type i = error ->
  In i (thankYouIssues (nodes st) (edges st)).
Proof.
  unfold getValidationIssues. intros Hin Herr.
  apply in_app_or in Hin. destruct Hin as [Hin | Hin].
  { apply orphanIssues_warnings in Hin. destruct Hin; congruence. }
  apply in_app_or in Hin. destruct Hin as [Hin | Hin].
  { apply salesIssues_warnings in Hin. destruct Hin; congruence. }
  apply in_app_or in Hin. destruct Hin as [Hin | Hin]; [exact Hin|].
  rewrite entryPointIssues_entryPoints in Hin.
  destruct (Nat.ltb 1 (length (entryPoints (nodes st) (edges st)))
            && Nat.ltb 1 (length (nodes st))); [|contradiction].
  destruct Hin as [<- | []]. discriminate Herr.
Qed.

(** X7.  The validator's only error is the one on Thank You pages: an
    issue of type [error] is reported exactly for each Thank You page that
    has an outgoing edge, with that page's id; every other issue is a
    warning. *)
Theorem validator_errors (st : FunnelState) (i : ValidationIssue) :
  In i (getValidationIssues st) /\ issue_type i = error <->
  exists n, In n (nodes st) /\ data_type (node_data n) = thankyou
            /\ outgoing (edges st) n <> []
            /\ i = nodeIssue error n " should not have outgoing connections".
Proof.
  split.
  - intros [Hin Herr]. apply thankYouIssues_spec.
    now apply error_issue_origin.
  - intros H. split.
    + unfold getValidationIssues.
      apply in_or_app. right. apply in_or_app. right.
      apply in_or_app. left. now apply thankYouIssues_spec.
    + destruct H as [n [_ [_ [_ ->]]]]. reflexivity.
Qed.

(** X8.  Every issue that names a node names a node of the canvas, and the
    only issue that names none is the one on entry points. *)
Theorem validator_names_present_nodes (st : FunnelState) (i : ValidationIssue) :
  In i (getValidationIssues st) ->
  (exists n, In n (nodes st) /\ issue_nodeId i = Some (node_id n))
  \/ i = entryPointIssue (length (entryPoints (nodes st) (edges st))).
Proof.
  unfold getValidationIssues. intros Hin.
  apply in_app_or in Hin. destruct Hin as [Hin | Hin].
  { left. now apply orphanIssues_warnings in Hin. }
  apply in_app_or in Hin. destruct Hin as [Hin | Hin].
  { left. now apply salesIssues_warnings in Hin. }
  apply in_app_or in Hin. destruct Hin as [Hin | Hin].
  { left. apply thankYouIssues_spec in Hin.
    destruct Hin as [n [Hn [_ [_ ->]]]]. now exists n. }
  right. rewrite entryPointIssues_entryPoints in Hin.
  destruct (Nat.ltb 1 (length (entryPoints (nodes st) (edges st)))
            && Nat.ltb 1 (length (nodes st))); [|contradiction].
  destruct Hin as [<- | []]. reflexivity.
Qed.

Lemma validator_names_present_nodes_witness :
  exists n, In n (nodes scenario)
            /\ issue_nodeId
                 (nodeIssue warning
                    (newNode sales {| pos_x := 0; pos_y := 0 |} 1000
                       initialState) " is disconnected")
               = Some (node_id n).
Proof.
  destruct (validator_names_present_nodes scenario
              (nodeIssue warning
                 (newNode sales {| pos_x := 0; pos_y := 0 |} 1000
                    initialState) " is disconnected")
              (or_introl eq_refl)) as [H | H]; [exact H | discriminate H].
Defined.

Lemma filter_length_le {A} (f : A -> bool) (l : list A) :
  length (filter f l) <= length l.
Proof.
  induction l as [|x l IH]; simpl; [lia|]. destruct (f x); simpl; lia.
Qed.

(** X9.  The warning on entry points is reported exactly when more than one
    node has no incoming edge and is no Thank You page, and its message
    carries their number; the further test on the number of nodes never
    changes the outcome. *)
Theorem validator_entry_points (st : FunnelState) :
  let count := length (entryPoints (nodes st) (edges st)) in
  (In (entryPointIssue count) (getValidationIssues st) <-> 1 < count)
  /\ entryPointIssues (nodes st) (edges st)
     = if Nat.ltb 1 count then [entryPointIssue count] else [].
Proof.
  intros count.
  assert (Heq : entryPointIssues (nodes st) (edges st)
                = if Nat.ltb 1 count then [entryPointIssue count] else []).
  { rewrite entryPointIssues_entryPoints. fold count.
    destruct (Nat.ltb 1 count) eqn:E; [|reflexivity].
    apply Nat.ltb_lt in E.
    pose proof (filter_length_le
                  (fun node => negb (hasIncoming (edges st) node)
                               && negb (isType thankyou node)) (nodes st))
      as Hle.
    fold (entryPoints (nodes st) (edges st)) in Hle. fold count in Hle.
    assert (Hn : Nat.ltb 1 (length (nodes st)) = true)
      by (apply Nat.ltb_lt; lia).
    rewrite Hn. reflexivity. }
  split; [|exact Heq]. split.
  - intros Hin. unfold getValidationIssues in Hin.
    apply in_app_or in Hin. destruct Hin as [Hin | Hin].
    { apply orphanIssues_warnings in Hin.
      destruct Hin as [_ [n [_ Hid]]]. discriminate Hid. }
    apply in_app_or in Hin. destruct Hin as [Hin | Hin].
    { apply salesIssues_warnings in Hin.
      destruct Hin as [_ [n [_ Hid]]]. discriminate Hid. }
    apply in_app_or in Hin. destruct Hin as [Hin | Hin].
    { apply thankYouIssues_spec in Hin.
      destruct Hin as [n [_ [_ [_ Hid]]]]. discriminate Hid. }
    rewrite Heq in Hin.
    destruct (Nat.ltb 1 count) eqn:E; [now apply Nat.ltb_lt | contradiction].
  - intros Hlt. unfold getValidationIssues.
    apply in_or_app. right. apply in_or_app. right. apply in_or_app. right.
    rewrite Heq. apply Nat.ltb_lt in Hlt. rewrite Hlt. now left.
Qed.

(** ** The hard rule, seen from the validator *)

Lemma perform_keeps_idsByCategory (a : Action) (st : FunnelState) :
  idsByCategory st -> idsByCategory (perform a st).
Proof.
  intros Hids n Hn.
  destruct (perform_nodes _ _ _ Hn) as [[n0 [Hn0 Hsame]] | [c [Hc <-]]].
  - destruct (Hids n0 Hn0) as [now Hid]. exists now.
    destruct Hsame as [S1 [_ [_ [S4 _]]]]. now rewrite S1, S4.
  - destruct (creations_shape _ _ _ Hc) as [now [Hid _]]. now exists now.
Qed.

Lemma same_id_same_category (st : FunnelState) (n m : FunnelNode) :
  idsByCategory st -> In n (nodes st) -> In m (nodes st) ->
  node_id n = node_id m ->
  data_type (node_data n) = data_type (node_data m).
Proof.
  intros Hids Hn Hm Heq.
  destruct (Hids n Hn) as [k Hk]. destruct (Hids m Hm) as [k' Hk'].
  rewrite Hk, Hk' in Heq. apply stampId_inj in Heq. now inversion Heq.
Qed.

Lemma findSource_hit (c : Connection) (ns : list FunnelNode) (n : FunnelNode) :
  In n ns -> conn_source c = Some (node_id n) ->
  exists m, findSource c ns = Some m /\ In m ns /\ node_id m = node_id n.
Proof.
  intros Hn Hsrc. unfold findSource.
  destruct (find (fun x => nullable_eqb (Some (node_id x)) (conn_source c)) ns)
    as [m|] eqn:E.
  - apply find_some in E. destruct E as [Hm Heq]. exists m.
    repeat split; try assumption.
    rewrite Hsrc in Heq. simpl in Heq. now apply String.eqb_eq.
  - exfalso. pose proof (find_none _ _ E n Hn) as H. cbv beta in H.
    rewrite Hsrc in H. simpl in H. now rewrite String.eqb_refl in H.
Qed.

Lemma perform_keeps_thankYouSinks (a : Action) (st : FunnelState) :
  edgesClosed st = true -> idsByCategory st -> thankYouSinks st ->
  thankYouSinks (perform a st).
Proof.
  intros Hclosed Hids Hsinks.
  destruct a as [t p now | x | x | c | x l]; cbn [perform];
    intros e n He Hn Hsrc.
  - cbn [addNode edges] in He. cbn [addNode nodes] in Hn.
    apply in_app_or in Hn. destruct Hn as [Hn | [<- | []]].
    + exact (Hsinks e n He Hn Hsrc).
    + cbn [newNode node_data data_type]. intros ->.
      destruct (proj1 (edgesClosed_true _) Hclosed e He) as [Hs _].
      apply hasNode_true in Hs. destruct Hs as [m [Hm Hsm]].
      destruct (Hids m Hm) as [k Hk].
      assert (Heq : stampId (data_type (node_data m), k)
                    = stampId (thankyou, now)).
      { rewrite <- Hk. rewrite Hsrc in Hsm. now inversion Hsm. }
      apply stampId_inj in Heq. inversion Heq as [[Hty Hnow]].
      exact (Hsinks e m He Hm Hsm Hty).
  - cbn [deleteNode edges] in He. cbn [deleteNode nodes] in Hn.
    apply filter_In in He. apply filter_In in Hn.
    exact (Hsinks e n (proj1 He) (proj1 Hn) Hsrc).
  - cbn [deleteEdge edges] in He. apply filter_In in He.
    exact (Hsinks e n (proj1 He) Hn Hsrc).
  - rewrite onConnect_nodes in Hn. unfold onConnect in He.
    destruct (sourceIs thankyou (findSource c (nodes st))) eqn:E;
      [exact (Hsinks e n He Hn Hsrc)|].
    cbn [edges] in He. apply addEdge_In in He. destruct He as [He | ->];
      [exact (Hsinks e n He Hn Hsrc)|].
    cbn [newEdge edge_source] in Hsrc.
    destruct (findSource_hit c _ n Hn Hsrc) as [m [Hfind [Hm Hid]]].
    rewrite Hfind in E. simpl in E.
    rewrite <- (same_id_same_category st m n Hids Hm Hn Hid).
    intros Hty. rewrite Hty in E. discriminate E.
  - cbn [updateNodeLabel edges] in He. cbn [updateNodeLabel nodes] in Hn.
    apply in_map_iff in Hn. destruct Hn as [n0 [Heq Hn0]].
    assert (Hsame : node_id n = node_id n0
                    /\ data_type (node_data n) = data_type (node_data n0)).
    { destruct (String.eqb (node_id n0) x); subst n; split; reflexivity. }
    destruct Hsame as [Hid Hty]. rewrite Hid in Hsrc. rewrite Hty.
    exact (Hsinks e n0 He Hn0 Hsrc).
Qed.

(** X10.  The hard rule keeps the validator's error out of reach of the
    canvas: on a canvas built from the empty one by [addNode],
    [deleteNode], [deleteEdge], [onConnect] and [updateNodeLabel], where
    each [onConnect] joins two nodes present at that moment, no Thank You
    page has an outgoing edge and every issue the validator reports is a
    warning. *)
Theorem canvas_has_no_validation_error (acts : list Action) :
  drawnOnCanvas acts initialState = true ->
  thankYouSinks (run acts initialState)
  /\ forall i, In i (getValidationIssues (run acts initialState)) ->
               issue_type i = warning.
Proof.
  intros Hdrawn.
  assert (Hinv : edgesClosed (run acts initialState) = true
                 /\ idsByCategory (run acts initialState)
                 /\ thankYouSinks (run acts initialState)).
  { assert (H0 : edgesClosed initialState = true
                 /\ idsByCategory initialState /\ thankYouSinks initialState).
    { split; [reflexivity|]. split; [intros n [] | intros e n []]. }
    revert H0 Hdrawn. generalize initialState as st.
    induction acts as [|a rest IH]; intros st Hst Hdrawn; [exact Hst|].
    cbn [drawnOnCanvas] in Hdrawn. apply andb_true_iff in Hdrawn.
    destruct Hdrawn as [Ha Hrest]. destruct Hst as [Hc [Hi Hs]].
    cbn [run]. apply IH; [|exact Hrest].
    split; [now apply perform_keeps_edgesClosed|].
    split; [now apply perform_keeps_idsByCategory
           | now apply perform_keeps_thankYouSinks]. }
  destruct Hinv as [_ [_ Hsinks]]. split; [exact Hsinks|].
  intros i Hin. destruct (issue_type i) eqn:E; [exfalso | reflexivity].
  destruct (proj1 (thankYouIssues_spec _ _ i) (error_issue_origin _ i Hin E))
    as [n [Hn [Hty [Hout _]]]].
  destruct (outgoing (edges (run acts initialState)) n) as [|e out] eqn:Eo;
    [now apply Hout|].
  assert (He : In e (outgoing (edges (run acts initialState)) n))
    by (rewrite Eo; now left).
  unfold outgoing in He. apply filter_In in He. destruct He as [He Hsrc].
  apply nullable_is_true in Hsrc.
  exact (Hsinks e n He Hn Hsrc Hty).
Qed.

Lemma canvas_has_no_validation_error_witness :
  Forall (fun i => issue_type i = warning)
         (getValidationIssues (run sampleDrawing initialState))
  /\ length (edges (run sampleDrawing initialState)) = 1.
Proof.
  split; [|reflexivity]. apply Forall_forall.
  apply (proj2 (canvas_has_no_validation_error sampleDrawing eq_refl)).
Defined.

Lemma flat_map_nil {A B} (f : A -> list B) (l : list A) :
  (forall x, In x l -> f x = []) -> flat_map f l = [].
Proof.
  induction l as [|x l IH]; intros H; [reflexivity|]. simpl.
  rewrite (H x (or_introl eq_refl)). apply IH.
  intros y Hy. apply H. now right.
Qed.

(** X11.  A canvas of at most one node whose node has no outgoing edge gives
    the validator nothing to report, whatever its category and whatever
    edges point at it: the checks on disconnected nodes, on a Sales Page
    without outgoing connection and on entry points are all off below two
    nodes. *)
Theorem validator_quiet_on_lone_node (st : FunnelState) :
  length (nodes st) <= 1 ->
  (forall n, In n (nodes st) -> outgoing (edges st) n = []) ->
  getValidationIssues st = [].
Proof.
  intros Hlen Hout. unfold getValidationIssues.
  assert (Hlt : Nat.ltb 1 (length (nodes st)) = false)
    by (apply Nat.ltb_ge; exact Hlen).
  assert (Ho : orphanIssues (nodes st) (edges st) = []).
  { unfold orphanIssues. rewrite Hlt. apply flat_map_nil.
    intros n _. now rewrite andb_false_r. }
  assert (Hs : salesIssues (nodes st) (edges st) = []).
  { unfold salesIssues. rewrite Hlt. apply flat_map_nil.
    intros n Hn. apply filter_In in Hn.
    rewrite (Hout n (proj1 Hn)). reflexivity. }
  assert (Ht : thankYouIssues (nodes st) (edges st) = []).
  { unfold thankYouIssues. apply flat_map_nil.
    intros n Hn. apply filter_In in Hn.
    rewrite (Hout n (proj1 Hn)). reflexivity. }
  rewrite Ho, Hs, Ht, entryPointIssues_entryPoints, Hlt, andb_false_r.
  reflexivity.
Qed.

Lemma validator_quiet_on_lone_node_witness :
  getValidationIssues
    (addNode sales {| pos_x := 0; pos_y := 0 |} 1000 initialState) = [].
Proof.
  apply validator_quiet_on_lone_node.
  - simpl. lia.
  - intros n _. reflexivity.
Defined.

(** ** Connecting *)

(** X12.  A connection whose source names no node of the canvas (a stale
    id, or [null]) passes both rules: [sourceNode] is [undefined],
    [onConnect] logs nothing and the new edge is handed to [addEdge]. *)
Theorem onConnect_unknown_source (st : FunnelState) (c : Connection) :
  hasNode (conn_source c) st = false ->
  onConnect c st =
    {| nodes := nodes st;
       edges := addEdge (newEdge c) (edges st);
       nodeCounters := nodeCounters st |}
  /\ onConnect_warnings c st = [].
Proof.
  intros Habs.
  assert (Hfind : findSource c (nodes st) = None).
  { unfold findSource.
    destruct (find (fun n => nullable_eqb (Some (node_id n)) (conn_source c))
                   (nodes st)) as [m|] eqn:E; [|reflexivity].
    apply find_some in E. destruct E as [Hm Heq].
    assert (Hhas : hasNode (conn_source c) st = true).
    { apply hasNode_true. exists m. split; [assumption|].
      destruct (conn_source c) as [a|]; [|discriminate Heq].
      simpl in Heq. apply String.eqb_eq in Heq. now subst. }
    congruence. }
  split.
  - unfold onConnect. now rewrite Hfind.
  - unfold onConnect_warnings. now rewrite Hfind.
Qed.

Lemma onConnect_unknown_source_witness :
  edges (onConnect (link "ghost-1" "sales-1000") scenario)
  = addEdge (newEdge (link "ghost-1" "sales-1000")) []
  /\ onConnect_warnings (link "ghost-1" "sales-1000") scenario = [].
Proof.
  destruct (onConnect_unknown_source scenario (link "ghost-1" "sales-1000")
              eq_refl) as [Hst Hlog].
  split; [now rewrite Hst | exact Hlog].
Defined.


(** ** Labels *)

Lemma labelsNonEmpty_true (st : FunnelState) :
  labelsNonEmpty st = true <->
  forall n, In n (nodes st) -> data_label (node_data n) <> "".
Proof.
  unfold labelsNonEmpty. rewrite forallb_forall.
  split; intros H n Hn; specialize (H n Hn).
  - apply negb_true_iff in H. now apply String.eqb_neq.
  - apply negb_true_iff. now apply String.eqb_neq.
Qed.

Lemma newLabel_nonempty (t : NodeType) (k : nat) : newLabel t k <> "".
Proof. destruct t; discriminate. Qed.

(** X13.  The node editor never blanks a label.  If no node has an empty
    label, none has after [handleBlur], whatever was typed and whatever
    [trim] the host provides; the labels [addNode] generates are not empty
    either, and it keeps the nodes there were.  [deleteNode] keeps every
    node with another id as it was and brings no other node, and
    [deleteEdge] and [onConnect] leave the list of nodes as it was. *)
Theorem labels_stay_nonempty (st : FunnelState) :
  labelsNonEmpty st = true ->
  (forall trim id dataLabel editLabel,
      labelsNonEmpty (handleBlur trim id dataLabel editLabel st) = true)
  /\ (forall type position now,
         labelsNonEmpty (addNode type position now st) = true
         /\ nodes (addNode type position now st)
            = nodes st ++ [newNode type position now st]
         /\ data_label (node_data (newNode type position now st)) <> "")
  /\ (forall nodeId,
         labelsNonEmpty (deleteNode nodeId st) = true
         /\ forall n, In n (nodes (deleteNode nodeId st))
                      <-> In n (nodes st) /\ node_id n <> nodeId)
  /\ (forall edgeId,
         labelsNonEmpty (deleteEdge edgeId st) = true
         /\ nodes (deleteEdge edgeId st) = nodes st)
  /\ (forall connection,
         labelsNonEmpty (onConnect connection st) = true
         /\ nodes (onConnect connection st) = nodes st).
Proof.
  intros Hst. pose proof (proj1 (labelsNonEmpty_true st) Hst) as H.
  split; [|split; [|split; [|split]]].
  - intros trim id dataLabel editLabel. unfold handleBlur.
    destruct (String.eqb (trim editLabel) "") eqn:E; [exact Hst|].
    destruct (String.eqb editLabel dataLabel); [exact Hst|]. cbn [negb andb].
    apply String.eqb_neq in E.
    apply labelsNonEmpty_true. intros n Hn.
    cbn [updateNodeLabel nodes] in Hn. apply in_map_iff in Hn.
    destruct Hn as [n0 [<- Hn0]].
    destruct (String.eqb (node_id n0) id); [exact E | now apply H].
  - intros type position now.
    split; [|split; [reflexivity | apply newLabel_nonempty]].
    apply labelsNonEmpty_true. intros n Hn.
    cbn [addNode nodes] in Hn. apply in_app_or in Hn.
    destruct Hn as [Hn | [<- | []]]; [now apply H|].
    apply newLabel_nonempty.
  - intros nodeId.
    assert (Hiff : forall n, In n (nodes (deleteNode nodeId st))
                             <-> In n (nodes st) /\ node_id n <> nodeId).
    { intros n. cbn [deleteNode nodes]. rewrite filter_In.
      now rewrite negb_true_iff, String.eqb_neq. }
    split; [|exact Hiff].
    apply labelsNonEmpty_true. intros n Hn.
    apply Hiff in Hn. now apply H.
  - intros edgeId. split; [exact Hst | reflexivity].
  - intros connection. split; [|apply onConnect_nodes].
    apply labelsNonEmpty_true. intros n Hn.
    rewrite onConnect_nodes in Hn. now apply H.
Qed.

Lemma labels_stay_nonempty_witness :
  labelsNonEmpty (handleBlur trimAscii "sales-1000" "Sales Page" "  " scenario)
  = true
  /\ labelsNonEmpty
       (handleBlur trimAscii "sales-1000" "Sales Page" " Landing " scenario)
     = true.
Proof.
  split; apply (proj1 (labels_stay_nonempty scenario eq_refl)).
Defined.

Lemma withLabel_same (n : FunnelNode) :
  withLabel (data_label (node_data n)) n = n.
Proof. now destruct n as [i ty p [t l b]]. Qed.

(** X14.  Leaving the editor with a text that trims to the label the node
    already has (blanks typed around it, say) leaves the store as it was,
    when the nodes of that id carry the label the editor was opened
    with. *)
Theorem handleBlur_same_text
    (trim : string -> string) (st : FunnelState)
    (id dataLabel editLabel : string) :
  (forall n, In n (nodes st) -> node_id n = id ->
             data_label (node_data n) = dataLabel) ->
  trim editLabel = dataLabel ->
  handleBlur trim id dataLabel editLabel st = st.
Proof.
  intros Hlabel Htrim. unfold handleBlur.
  destruct (negb (String.eqb (trim editLabel) "")
            && negb (String.eqb editLabel dataLabel)); [|reflexivity].
  rewrite Htrim. destruct st as [ns es cs]. unfold updateNodeLabel.
  cbn [nodes edges nodeCounters] in *. f_equal.
  rewrite <- (map_id ns) at 2. apply map_ext_in. intros n Hn.
  destruct (String.eqb (node_id n) id) eqn:E; [|reflexivity].
  apply String.eqb_eq in E. rewrite <- (Hlabel n Hn E).
  apply withLabel_same.
Qed.

Lemma handleBlur_same_text_witness :
  handleBlur trimAscii "sales-1000" "Sales Page" " Sales Page  " scenario
  = scenario.
Proof.
  apply handleBlur_same_text; [|reflexivity].
  intros n [<- | [<- | []]]; [reflexivity | discriminate].
Defined.

(** X15.  Relabelling the same id twice keeps the last label only, and
    relabelling two different ids can be done in either order. *)
Theorem updateNodeLabel_composes
    (st : FunnelState) (id id' l1 l2 : string) :
  updateNodeLabel id l2 (updateNodeLabel id l1 st) = updateNodeLabel id l2 st
  /\ (id <> id' ->
      updateNodeLabel id l1 (updateNodeLabel id' l2 st)
      = updateNodeLabel id' l2 (updateNodeLabel id l1 st)).
Proof.
  split.
  - unfold updateNodeLabel. cbn [nodes edges nodeCounters]. f_equal.
    rewrite map_map. apply map_ext. intros n.
    destruct (String.eqb (node_id n) id) eqn:E.
    + cbn [withLabel node_id]. rewrite E. reflexivity.
    + now rewrite E.
  - intros Hne. unfold updateNodeLabel. cbn [nodes edges nodeCounters].
    f_equal. rewrite !map_map. apply map_ext. intros n.
    destruct (String.eqb (node_id n) id) eqn:E,
             (String.eqb (node_id n) id') eqn:E';
      cbn [withLabel node_id]; rewrite ?E, ?E'; try reflexivity.
    apply String.eqb_eq in E, E'. congruence.
Qed.

Lemma updateNodeLabel_composes_witness :
  updateNodeLabel "sales-1000" "A"
    (updateNodeLabel "thankyou-1001" "B" scenario)
  = updateNodeLabel "thankyou-1001" "B"
      (updateNodeLabel "sales-1000" "A" scenario).
Proof.
  apply (proj2 (updateNodeLabel_composes scenario "sales-1000"
                  "thankyou-1001" "A" "B")).
  discriminate.
Defined.

(** ** Creating and deleting *)

(** X16.  Deleting a node right after it was created gives back the nodes
    and the edges there were, when its id was free and the edges joined
    present nodes, but not the counter: that of its category stays one
    higher, so the next label of the category skips a number. *)
Theorem deleteNode_after_addNode
    (st : FunnelState) (type : NodeType) (position : Position) (now : Z) :
  edgesClosed st = true ->
  hasNode (Some (stampId (type, now))) st = false ->
  let st' := deleteNode (stampId (type, now))
               (addNode type position now st) in
  nodes st' = nodes st
  /\ edges st' = edges st
  /\ nodeCounters st' type = nodeCounters st type + 1.
Proof.
  intros Hclosed Hfree st'. subst st'.
  repeat split.
  - cbn [deleteNode addNode nodes]. rewrite filter_app.
    cbn [filter newNode node_id]. fold (stampId (type, now)).
    rewrite String.eqb_refl. cbn [negb]. rewrite List.app_nil_r.
    now apply absent_nodes_kept.
  - cbn [deleteNode addNode edges]. now apply absent_edges_kept.
  - cbn [deleteNode addNode nodeCounters]. now rewrite NodeType_eqb_refl.
Qed.

Lemma deleteNode_after_addNode_witness :
  nodes (deleteNode "upsell-1002"
           (addNode upsell {| pos_x := 0; pos_y := 0 |} 1002 scenario))
  = nodes scenario
  /\ newLabel upsell
       (nodeCounters
          (deleteNode "upsell-1002"
             (addNode upsell {| pos_x := 0; pos_y := 0 |} 1002 scenario))
          upsell + 1)
     = "Upsell 2".
Proof.
  split; [|reflexivity].
  apply (deleteNode_after_addNode scenario upsell
           {| pos_x := 0; pos_y := 0 |} 1002 eq_refl eq_refl).
Defined.

Lemma perform_nodesOfType (a : Action) (st : FunnelState) (t : NodeType) :
  length (nodesOfType t (perform a st))
  <= length (nodesOfType t st) + countAdds t [a].
Proof.
  unfold nodesOfType.
  destruct a as [t' p now | x | x | c | x l]; cbn [perform countAdds].
  - cbn [addNode nodes]. rewrite filter_app, length_app.
    cbn [filter]. unfold isType at 2. cbn [newNode node_data data_type].
    destruct (NodeType_eqb t' t); simpl; lia.
  - cbn [deleteNode nodes].
    assert (H : forall ns,
               length (filter (isType t)
                         (filter (fun n => negb (String.eqb (node_id n) x)) ns))
               <= length (filter (isType t) ns)).
    { induction ns as [|n ns IH]; [simpl; lia|]. simpl.
      destruct (String.eqb (node_id n) x); simpl;
        destruct (isType t n); simpl; lia. }
    specialize (H (nodes st)). lia.
  - cbn [deleteEdge nodes]. lia.
  - rewrite onConnect_nodes. lia.
  - cbn [updateNodeLabel nodes].
    assert (H : forall ns,
               filter (isType t)
                 (map (fun node => if String.eqb (node_id node) x
                                   then withLabel l node else node) ns)
               = map (fun node => if String.eqb (node_id node) x
                                  then withLabel l node else node)
                     (filter (isType t) ns)).
    { induction ns as [|n ns IH]; [reflexivity|]. simpl.
      assert (E : isType t (if String.eqb (node_id n) x
                            then withLabel l n else n) = isType t n)
        by now destruct (String.eqb (node_id n) x).
      rewrite E. destruct (isType t n); simpl; now rewrite IH. }
    rewrite H, length_map. lia.
Qed.

(** X17.  A counter bounds the nodes of its category: on a canvas built
    from the empty one there are never more nodes of a category than its
    counter says were created. *)
Theorem counters_bound_nodes (acts : list Action) (t : NodeType) :
  length (nodesOfType t (run acts initialState))
  <= nodeCounters (run acts initialState) t.
Proof.
  assert (H0 : length (nodesOfType t initialState)
               <= nodeCounters initialState t) by (simpl; lia).
  revert H0. generalize initialState as st.
  induction acts as [|a rest IH]; intros st Hst; [exact Hst|].
  cbn [run]. apply IH.
  pose proof (perform_nodesOfType a st t).
  pose proof (perform_counter a st t). lia.
Qed.

(** ** The smallest funnel *)

(** X18.  A Sales Page linked by one edge to a Thank You page is a funnel
    the validator accepts, whatever the ids (two different ones), labels,
    positions and handles are and in whichever order the two nodes were
    created. *)
Theorem validator_accepts_minimal_funnel
    (st : FunnelState) (s t : FunnelNode) (e : FunnelEdge) :
  data_type (node_data s) = sales ->
  data_type (node_data t) = thankyou ->
  node_id s <> node_id t ->
  edge_source e = Some (node_id s) ->
  edge_target e = Some (node_id t) ->
  (nodes st = [s; t] \/ nodes st = [t; s]) ->
  edges st = [e] ->
  getValidationIssues st = [].
Proof.
  intros Hs Ht Hne Hsrc Htgt Hnodes Hedges.
  assert (Hst : String.eqb (node_id s) (node_id t) = false)
    by now apply String.eqb_neq.
  assert (Hts : String.eqb (node_id t) (node_id s) = false)
    by (rewrite String.eqb_sym; exact Hst).
  unfold getValidationIssues, orphanIssues, salesIssues, thankYouIssues,
    entryPointIssues, hasIncoming, hasOutgoing, outgoing, isType.
  rewrite Hedges.
  destruct Hnodes as [-> | ->];
    repeat (progress (cbn [filter flat_map existsb length app
                           NodeType_eqb nullable_is negb andb orb
                           Nat.ltb Nat.leb Nat.eqb];
                      rewrite ?Hs, ?Ht, ?Hsrc, ?Htgt,
                              ?String.eqb_refl, ?Hst, ?Hts));
    reflexivity.
Qed.

Lemma validator_accepts_minimal_funnel_witness :
  getValidationIssues (onConnect (link "sales-1000" "thankyou-1001") scenario)
  = [].
Proof.
  apply (validator_accepts_minimal_funnel _
           (newNode sales {| pos_x := 0; pos_y := 0 |} 1000 initialState)
           (newNode thankyou {| pos_x := 0; pos_y := 200 |} 1001
              (addNode sales {| pos_x := 0; pos_y := 0 |} 1000 initialState))
           (newEdge (link "sales-1000" "thankyou-1001")));
    try reflexivity; [discriminate | left; reflexivity].
Defined.

(** ** Loading, saving, clearing *)

(** X19.  [loadFromStorage] leaves the store as it is when there is nothing
    to load: no item under the storage key, an empty item, an item that
    does not parse, or the text [null]. *)
Theorem loadFromStorage_keeps_state
    (host : JSONHost) (h : RawState) (ls : Storage) :
  (getItem STORAGE_KEY ls = None
   \/ getItem STORAGE_KEY ls = Some ""
   \/ exists stored, getItem STORAGE_KEY ls = Some stored
                     /\ (JSON_parse stored = None
                         \/ JSON_parse stored = Some JNull)) ->
  loadFromStorage h ls = h.
Proof.
  unfold loadFromStorage.
  intros [-> | [-> | [stored [-> [Hp | Hp]]]]]; try reflexivity;
    destruct (String.eqb stored ""); try reflexivity; now rewrite Hp.
Qed.

Lemma loadFromStorage_keeps_state_witness :
  loadFromStorage (host := referenceJSON) (rawOf (memory emptyStore))
    (withItem STORAGE_KEY "{ nodes: " (localStorage emptyStore))
  = rawOf (memory emptyStore).
Proof.
  apply loadFromStorage_keeps_state. right. right.
  exists "{ nodes: ". split; [reflexivity | left; reflexivity].
Defined.

Lemma stringify_nonempty (v : json) (space : nat) :
  String.eqb (stringify v space) "" = false.
Proof.
  apply String.eqb_neq. intros H.
  pose proof (weight_le_length v (spaces (Nat.min space 10)) "") as Hw.
  pose proof (weight_pos v) as Hp.
  unfold stringify in H. rewrite H in Hw. simpl in Hw. lia.
Qed.

(** X20.  What [saveToStorage] writes, [loadFromStorage] reads back (on the
    reference JSON implementation): when the browser accepts the write,
    [saveToStorage] of the snapshot of any store state returns, and loading
    from the storage it leaves yields that snapshot's nodes, edges and
    counters, whatever the store held when the load ran.  When the browser
    refuses the write, [saveToStorage] throws. *)
Theorem save_then_load (st : FunnelState) (ls : Storage) (h : RawState) :
  let s := {| memory := snapshotOf st; localStorage := ls |} in
  let saved := stringify (snapshotJson (snapshotOf st)) 0 in
  (accepts ls (items ls) STORAGE_KEY saved = true ->
   exists s', saveToStorage (host := referenceJSON) s = Some s'
              /\ memory s' = snapshotOf st
              /\ loadFromStorage (host := referenceJSON) h (localStorage s')
                 = rawOf (snapshotOf st))
  /\ (accepts ls (items ls) STORAGE_KEY saved = false ->
      saveToStorage (host := referenceJSON) s = None).
Proof.
  intros s saved. subst s.
  unfold saveToStorage, setItem.
  cbn [localStorage memory JSON_stringify referenceJSON]. fold saved.
  split; intros ->; [|reflexivity].
  eexists. split; [reflexivity|]. split; [reflexivity|].
  unfold loadFromStorage, getItem, withItem. cbn [localStorage items].
  rewrite String.eqb_refl.
  cbn [JSON_parse referenceJSON]. subst saved.
  rewrite stringify_nonempty.
  rewrite parse_stringify by apply wellFormed_snapshotOf.
  reflexivity.
Qed.

Lemma save_then_load_witness :
  exists s',
    saveToStorage (host := referenceJSON)
      {| memory := snapshotOf scenario; localStorage := emptyStorage |}
    = Some s'
    /\ memory s' = snapshotOf scenario
    /\ loadFromStorage (host := referenceJSON) (rawOf nullCounters)
         (localStorage s')
       = rawOf (snapshotOf scenario).
Proof.
  apply (proj1 (save_then_load scenario emptyStorage (rawOf nullCounters))).
  reflexivity.
Defined.

(** X21.  [loadFromStorage] checks nothing of what it parsed, unlike
    [importJSON]: a stored text whose value is not [null] replaces the
    three fields of the store by whatever [nodes], [edges] and
    [nodeCounters] are in it, [undefined] included, while [importJSON]
    refuses the same text as soon as [nodes] is not an array. *)
Theorem loadFromStorage_does_not_validate
    (host : JSONHost) (h : RawState) (ls : Storage) (s : Store)
    (stored : string) (v : json) :
  getItem STORAGE_KEY ls = Some stored ->
  stored <> "" ->
  JSON_parse stored = Some v ->
  v <> JNull ->
  loadFromStorage h ls =
    {| raw_nodes := field v "nodes";
       raw_edges := field v "edges";
       raw_nodeCounters := field v "nodeCounters" |}
  /\ (asArray (field v "nodes") = None -> importJSON stored s = (false, s)).
Proof.
  intros Hget Hne Hparse Hnull.
  assert (Hd : destructure v =
               Some (field v "nodes", field v "edges", field v "nodeCounters"))
    by (destruct v; try reflexivity; contradiction).
  split.
  - unfold loadFromStorage. rewrite Hget.
    apply String.eqb_neq in Hne. rewrite Hne, Hparse, Hd. reflexivity.
  - intros Hbad. unfold importJSON. rewrite Hparse, Hd, Hbad. reflexivity.
Qed.

Lemma loadFromStorage_does_not_validate_witness :
  raw_nodes
    (loadFromStorage (host := referenceJSON) (rawOf (memory emptyStore))
       (withItem STORAGE_KEY "[1, 2]" (localStorage emptyStore)))
  = None
  /\ importJSON (host := referenceJSON) "[1, 2]" emptyStore
     = (false, emptyStore).
Proof.
  destruct (loadFromStorage_does_not_validate referenceJSON
              (rawOf (memory emptyStore))
              (withItem STORAGE_KEY "[1, 2]" (localStorage emptyStore))
              emptyStore "[1, 2]" (JArray [JNumber 1; JNumber 2]) eq_refl)
    as [Hload Himport]; try reflexivity; try discriminate.
  split; [now rewrite Hload | now apply Himport].
Defined.

(** X22.  [clearCanvas] empties the canvas, puts every counter back to zero
    and removes the stored item, and only that item; a load that follows
    finds nothing and leaves the store alone. *)
Theorem clearCanvas_forgets (host : JSONHost) (s : Store) (h : RawState) :
  memory (clearCanvas s) = snapshotOf initialState
  /\ getItem STORAGE_KEY (localStorage (clearCanvas s)) = None
  /\ (forall key, key <> STORAGE_KEY ->
        getItem key (localStorage (clearCanvas s))
        = getItem key (localStorage s))
  /\ loadFromStorage h (localStorage (clearCanvas s)) = h.
Proof.
  unfold clearCanvas, getItem, removeItem. cbn [memory localStorage items].
  split; [reflexivity|]. split; [now rewrite String.eqb_refl|]. split.
  - intros key Hne. apply String.eqb_neq in Hne. now rewrite Hne.
  - unfold loadFromStorage, getItem. cbn [items].
    now rewrite String.eqb_refl.
Qed.

(** X23.  The compact text that [saveToStorage] keeps under the storage key
    is a file [importJSON] reads (on the reference JSON implementation,
    for the snapshot of any store state): imported into any store, it
    brings the saved snapshot back into memory, and the import returns
    [true] exactly when the browser accepts the write of that same text
    under the storage key. *)
Theorem saved_text_can_be_imported
    (st : FunnelState) (ls : Storage) (s : Store) (s' : Store) :
  saveToStorage (host := referenceJSON)
    {| memory := snapshotOf st; localStorage := ls |} = Some s' ->
  exists stored,
    getItem STORAGE_KEY (localStorage s') = Some stored
    /\ memory (snd (importJSON (host := referenceJSON) stored s))
       = snapshotOf st
    /\ fst (importJSON (host := referenceJSON) stored s)
       = accepts (localStorage s) (items (localStorage s)) STORAGE_KEY stored.
Proof.
  unfold saveToStorage, setItem.
  cbn [localStorage memory JSON_stringify referenceJSON].
  set (stored := stringify (snapshotJson (snapshotOf st)) 0).
  destruct (accepts ls (items ls) STORAGE_KEY stored); [|discriminate].
  intros [= <-]. exists stored. split.
  - unfold getItem, withItem. cbn [localStorage items].
    now rewrite String.eqb_refl.
  - unfold importJSON. cbn [JSON_parse referenceJSON]. subst stored.
    rewrite parse_stringify by apply wellFormed_snapshotOf.
    cbn [destructure snapshotJson field lookup String.eqb Ascii.eqb
         Bool.eqb asArray truthy snapshotOf snap_nodes snap_edges
         snap_nodeCounters encodeCounters].
    unfold saveToStorage, setItem.
    cbn [localStorage memory JSON_stringify referenceJSON snapshotJson
         snap_nodes snap_edges snap_nodeCounters].
    fold (encodeCounters (nodeCounters st)).
    change {| snap_nodes := map encodeNode (nodes st);
              snap_edges := map encodeEdge (edges st);
              snap_nodeCounters := encodeCounters (nodeCounters st) |}
      with (snapshotOf st).
    destruct (accepts (localStorage s) (items (localStorage s)) STORAGE_KEY _);
      split; reflexivity.
Qed.

Lemma saved_text_can_be_imported_witness :
  exists stored,
    getItem STORAGE_KEY
      (localStorage
         {| memory := snapshotOf scenario;
            localStorage :=
              withItem STORAGE_KEY
                (stringify (snapshotJson (snapshotOf scenario)) 0)
                emptyStorage |})
    = Some stored
    /\ memory (snd (importJSON (host := referenceJSON) stored fullStore))
       = snapshotOf scenario
    /\ fst (importJSON (host := referenceJSON) stored fullStore) = false.
Proof.
  exact (saved_text_can_be_imported scenario emptyStorage fullStore _ eq_refl).
Defined.

(** ** The validation panel *)

Lemma issues_partition (issues : list ValidationIssue) :
  length (filter isError issues) + length (filter isWarning issues)
  = length issues.
Proof.
  induction issues as [|i issues IH]; [reflexivity|].
  unfold isError, isWarning in *. simpl.
  destruct (issue_type i); simpl; lia.
Qed.

(** X24.  The panel shows the invitation to drag elements exactly on a
    canvas without nodes and the all-clear exactly when there are nodes and
    no issue.  Otherwise it lists the messages of the first five issues in
    order, announces the others by a count exactly when there are more than
    five, and shows an error count exactly when there is an error; errors
    and warnings together are all the issues. *)
Theorem panelView_accounts
    (nodesLength : nat) (issues : list ValidationIssue) :
  (panelView nodesLength issues = PanelEmpty <-> nodesLength = 0)
  /\ (panelView nodesLength issues = PanelGood <->
      nodesLength <> 0 /\ issues = [])
  /\ length (filter isError issues) + length (filter isWarning issues)
     = length issues
  /\ (forall errorsText warningsText shown moreText,
        panelView nodesLength issues
        = PanelIssues errorsText warningsText shown moreText ->
        shown = map issue_message (firstn 5 issues)
        /\ length shown = Nat.min 5 (length issues)
        /\ (moreText = None <-> length issues <= 5)
        /\ (errorsText = None <-> filter isError issues = [])
        /\ (warningsText = None <-> filter isWarning issues = [])).
Proof.
  unfold panelView.
  destruct (Nat.eqb nodesLength 0) eqn:En.
  { apply Nat.eqb_eq in En.
    split; [split; [intros _; exact En | reflexivity]|].
    split; [split; [discriminate | intros [H _]; contradiction]|].
    split; [apply issues_partition | discriminate]. }
  apply Nat.eqb_neq in En.
  destruct (Nat.eqb (length issues) 0) eqn:El.
  { apply Nat.eqb_eq in El. apply length_zero_iff_nil in El.
    split; [split; [discriminate | intros H; contradiction]|].
    split; [split; [intros _; now split | reflexivity]|].
    split; [apply issues_partition | discriminate]. }
  apply Nat.eqb_neq in El.
  split; [split; [discriminate | intros H; contradiction]|].
  split.
  { split; [discriminate|]. intros [_ H]. subst issues. now elim El. }
  split; [apply issues_partition|].
  intros et wt shown more H. injection H as <- <- <- <-.
  split; [reflexivity|].
  split; [rewrite length_map; exact (length_firstn 5 issues)|].
  split.
  - destruct (Nat.ltb 5 (length issues)) eqn:E.
    + apply Nat.ltb_lt in E. split; [discriminate | intros H; lia].
    + apply Nat.ltb_ge in E. split; [intros _; exact E | reflexivity].
  - split.
    + destruct (filter isError issues); simpl;
        split; try reflexivity; discriminate.
    + destruct (filter isWarning issues); simpl;
        split; try reflexivity; discriminate.
Qed.

(** ** Connections are kept once *)

Lemma ForallOrdPairs_filter {A} (R : A -> A -> Prop) (f : A -> bool)
    (l : list A) :
  ForallOrdPairs R l -> ForallOrdPairs R (filter f l).
Proof.
  induction 1 as [|a l Ha Hl IH]; simpl; [constructor|].
  destruct (f a); [|exact IH]. constructor; [|exact IH].
  rewrite Forall_forall in *. intros x Hx. apply filter_In in Hx.
  now apply Ha.
Qed.

Lemma ForallOrdPairs_last {A} (R : A -> A -> Prop) (l : list A) (x : A) :
  ForallOrdPairs R l -> Forall (fun a => R a x) l ->
  ForallOrdPairs R (l ++ [x]).
Proof.
  induction 1 as [|a l Ha Hl IH]; intros Hx; simpl.
  - constructor; constructor.
  - inversion Hx as [|? ? Hax Hlx]; subst. constructor.
    + apply Forall_app. split; [exact Ha|]. constructor; [exact Hax|].
      constructor.
    + now apply IH.
Qed.

Lemma Forall_filter_keeps {A} (P : A -> Prop) (f : A -> bool) (l : list A) :
  Forall P l -> Forall P (filter f l).
Proof.
  rewrite !Forall_forall. intros H x Hx. apply filter_In in Hx.
  now apply H.
Qed.

Lemma addEdge_keeps_connectionsOnce (x : FunnelEdge) (es : list FunnelEdge) :
  connectionsOnce es -> connectionsOnce (addEdge x es).
Proof.
  intros [Hends Honce]. unfold addEdge.
  destruct (falsy (edge_source x)) eqn:Es; [now split|].
  destruct (falsy (edge_target x)) eqn:Et; [now split|]. cbn [orb].
  destruct (connectionExists x es) eqn:Ec; [now split|].
  split.
  - apply Forall_app. split; [exact Hends|]. now repeat constructor.
  - apply ForallOrdPairs_last; [exact Honce|].
    apply Forall_forall. intros el Hel.
    destruct (sameConnection el x) eqn:E; [|reflexivity].
    assert (Hex : connectionExists x es = true).
    { unfold connectionExists. apply existsb_exists. now exists el. }
    congruence.
Qed.

Lemma perform_keeps_connectionsOnce (a : Action) (st : FunnelState) :
  connectionsOnce (edges st) -> connectionsOnce (edges (perform a st)).
Proof.
  intros Hst. pose proof Hst as [Hends Honce].
  destruct a as [t p now | x | x | c | x l]; cbn [perform].
  - exact Hst.
  - cbn [deleteNode edges].
    split; [now apply Forall_filter_keeps | now apply ForallOrdPairs_filter].
  - cbn [deleteEdge edges].
    split; [now apply Forall_filter_keeps | now apply ForallOrdPairs_filter].
  - unfold onConnect.
    destruct (sourceIs thankyou (findSource c (nodes st))); [exact Hst|].
    cbn [edges]. now apply addEdge_keeps_connectionsOnce.
  - exact Hst.
Qed.

(** X25.  A connection is kept once.  On a canvas built from the empty one
    by [addNode], [deleteNode], [deleteEdge], [onConnect] and
    [updateNodeLabel], with any arguments, no edge has an empty or [null]
    source or target, and no two edges have the same source, the same
    target and the same handles (two handles that are both [null] or empty
    counting as the same). *)
Theorem connections_kept_once (acts : list Action) :
  connectionsOnce (edges (run acts initialState)).
Proof.
  assert (H0 : connectionsOnce (edges initialState))
    by (split; constructor).
  revert H0. generalize initialState as st.
  induction acts as [|a rest IH]; intros st Hst; [exact Hst|].
  cbn [run]. apply IH. now apply perform_keeps_connectionsOnce.
Qed.
